(** * wordcloud_generator.py: message attribution and word extraction

    A shallow embedding of the parsing core of [WordCloudGenerator]
    ([_check_file], [_parse_csv], [_parse_whatsapp], [_extract_words],
    [generate_cloud]) together with the pieces of the Python runtime the
    code relies on: [str] methods, the four regular expressions, ordered
    dictionaries, exceptions and the part of a pandas [DataFrame] that the
    code touches. *)

From Stdlib Require Import List NArith ZArith String Ascii Bool Arith Lia.
From Stdlib Require Import Permutation.
Import ListNotations.
Open Scope N_scope.

(** ** Python strings *)

(** A Python [str] is a sequence of Unicode code points. *)
Definition char := N.
Definition str := list char.

Definition chr (a : ascii) : char := N_of_ascii a.

(** [py "text"] is the [str] with the code points of an ASCII literal. *)
Definition py (s : string) : str := map chr (list_ascii_of_string s).

Fixpoint str_eqb (a b : str) : bool :=
  match a, b with
  | [], [] => true
  | x :: a', y :: b' => (x =? y) && str_eqb a' b'
  | _, _ => false
  end.

Definition in_range (lo hi c : char) : bool := (lo <=? c) && (c <=? hi).

(** [str.isspace] on one code point: CPython's [_PyUnicode_IsWhitespace]. *)
Definition isspace (c : char) : bool :=
  in_range 9 13 c || in_range 28 32 c || (c =? 133) || (c =? 160)
  || (c =? 5760) || in_range 8192 8202 c || (c =? 8232) || (c =? 8233)
  || (c =? 8239) || (c =? 8287) || (c =? 12288).

(** [s.split()]: the maximal runs of non-whitespace code points of [s]. *)
Fixpoint split (s : str) : list str :=
  match s with
  | [] => []
  | c :: s' =>
      if isspace c then split s'
      else match s' with
           | [] => [[c]]
           | c' :: _ =>
               if isspace c' then [c] :: split s'
               else match split s' with
                    | w :: ws => (c :: w) :: ws
                    | [] => [[c]]
                    end
           end
  end.

(** [s.replace(c, '')] for a one-character [c]. *)
Definition replace_char (c : char) (s : str) : str :=
  filter (fun x => negb (x =? c)) s.

(** [sep.join(words)] *)
Fixpoint join (sep : str) (words : list str) : str :=
  match words with
  | [] => []
  | [w] => w
  | w :: ws => w ++ sep ++ join sep ws
  end.

(** ** Exceptions *)

Inductive exn : Type :=
| Exception (msg : string)
| KeyError (key : option str)
| TypeError
| AttributeError
| UnboundLocalError (var : string).

Inductive result (A : Type) : Type :=
| Ok (a : A)
| Raise (e : exn).
Arguments Ok {A} a.
Arguments Raise {A} e.

Definition bind {A B} (r : result A) (k : A -> result B) : result B :=
  match r with
  | Ok a => k a
  | Raise e => Raise e
  end.

Notation "x <- r ;; k" := (bind r (fun x => k))
  (at level 61, r at next level, right associativity).

(** A [for] loop whose body may raise: the state is threaded through the
    items in order and the first exception ends the loop. *)
Fixpoint for_each {A S} (body : S -> A -> result S) (items : list A) (st : S)
  : result S :=
  match items with
  | [] => Ok st
  | x :: rest => st' <- body st x ;; for_each body rest st'
  end.

(** ** Dictionaries

    A Python [dict] keeps its keys in insertion order; assigning to a key
    that is present keeps its position. *)

Definition dict (V : Type) := list (str * V).

Fixpoint dict_get {V} (d : dict V) (k : str) : option V :=
  match d with
  | [] => None
  | (k', v) :: d' => if str_eqb k' k then Some v else dict_get d' k
  end.

Fixpoint dict_set {V} (d : dict V) (k : str) (v : V) : dict V :=
  match d with
  | [] => [(k, v)]
  | (k', v') :: d' =>
      if str_eqb k' k then (k', v) :: d' else (k', v') :: dict_set d' k v
  end.

Definition keys {V} (d : dict V) : list str := map fst d.

(** ** Regular expressions

    The patterns of the program use character classes, bounded greedy
    repetition, [^], [.] and [$].  No class contains the newline, so a
    greedy repetition followed by [$] or by a character outside the class
    has only one way to match: over the longest run of class members. *)

Definition is_digit (c : char) : bool := in_range 48 57 c.
Definition is_upper_AZ (c : char) : bool := in_range 65 90 c.
Definition is_lower_az (c : char) : bool := in_range 97 122 c.
Definition lit (a : ascii) (c : char) : bool := c =? chr a.

(** [[A-Za-z0-9 -]]: the final [-] is a literal hyphen. *)
Definition name_class (c : char) : bool :=
  is_upper_AZ c || is_lower_az c || is_digit c || lit " " c || lit "-" c.

(** [[0-9TZ:. -+]]: here [ -+] is the range from the space (32) to [+] (43),
    so the hyphen itself is not a member. *)
Definition timestamp_class (c : char) : bool :=
  is_digit c || lit "T" c || lit "Z" c || lit ":" c || lit "." c
  || in_range 32 43 c.

(** [[A-Z0-9]] *)
Definition alphanumeric_class (c : char) : bool := is_upper_AZ c || is_digit c.

(** [.] matches every code point but the newline. *)
Definition dot (c : char) : bool := negb (c =? 10).

(** The longest prefix whose members satisfy [p], and what follows it. *)
Fixpoint span (p : char -> bool) (s : str) : str * str :=
  match s with
  | [] => ([], [])
  | c :: s' =>
      if p c then let (run, rest) := span p s' in (c :: run, rest)
      else ([], s)
  end.

(** [$] outside MULTILINE mode: the end of the string, or the position
    before a newline that is the last code point. *)
Definition at_dollar (rest : str) : bool :=
  match rest with
  | [] => true
  | [c] => c =? 10
  | _ => false
  end.

(** [re.compile("^[cls]{lo,hi}$").match(s)] as a truth value; [hi = None]
    is an unbounded repetition. *)
Definition match_class (cls : char -> bool) (lo : nat) (hi : option nat)
  (s : str) : bool :=
  let (run, rest) := span cls s in
  (lo <=? List.length run)%nat
  && match hi with Some h => (List.length run <=? h)%nat | None => true end
  && at_dollar rest.

Definition re_timestamp : str -> bool := match_class timestamp_class 4 (Some 25%nat).
Definition re_name : str -> bool := match_class name_class 1 (Some 30%nat).
Definition re_alphanumeric : str -> bool := match_class alphanumeric_class 1 None.

(** A sequence of one-character items at the start of [s]; the result is
    the remainder. *)
Fixpoint match_items (items : list (char -> bool)) (s : str) : option str :=
  match items, s with
  | [], _ => Some s
  | p :: items', c :: s' => if p c then match_items items' s' else None
  | _ :: _, [] => None
  end.

(** [[0-9]{2}/[0-9]{2}/[0-9]{4}, [0-9]{2}:[0-9]{2} - ] *)
Definition datetime_prefix : list (char -> bool) :=
  [is_digit; is_digit; lit "/"; is_digit; is_digit; lit "/";
   is_digit; is_digit; is_digit; is_digit; lit ","; lit " ";
   is_digit; is_digit; lit ":"; is_digit; is_digit;
   lit " "; lit "-"; lit " "].

(** [re_new_line]:
    [^[0-9]{2}/[0-9]{2}/[0-9]{4}, [0-9]{2}:[0-9]{2} - ([A-Za-z0-9 -]{1,30}): (.+)$].
    The result holds [group(1)] and [group(2)]; [None] is Python's [None]. *)
Definition re_new_line (line : str) : option (str * str) :=
  match match_items datetime_prefix line with
  | None => None
  | Some rest =>
      let (person, rest1) := span name_class rest in
      if (1 <=? List.length person)%nat && (List.length person <=? 30)%nat then
        match match_items [lit ":"; lit " "] rest1 with
        | None => None
        | Some rest2 =>
            let (message, tail) := span dot rest2 in
            if (1 <=? List.length message)%nat && at_dollar tail
            then Some (person, message)
            else None
        end
      else None
  end.

(** ** [_parse_whatsapp]: the attribution loop *)

(** The local variables that live across iterations: [person] is unbound
    ([None]) until a line matches. *)
Record wa_state : Type := mk_wa {
  person : option str;
  person_data : dict (list str)
}.

(** [try: person_data[person].append(message)]
    [except KeyError: person_data[person] = [message]] *)
Definition append_message (d : dict (list str)) (p message : str)
  : dict (list str) :=
  match dict_get d p with
  | Some l => dict_set d p (l ++ [message])
  | None => dict_set d p [message]
  end.

(** One iteration of [for line in self.file_data].  The [AttributeError] of
    [regex_match.string] on [None] is caught and selects the continuation
    branch; reading the unbound [person] is not caught. *)
Definition whatsapp_line (st : wa_state) (line : str) : result wa_state :=
  let '(who, message) :=
    match re_new_line line with
    | None => (person st, line)
    | Some (p, m) => (Some p, m)
    end in
  match who with
  | None => Raise (UnboundLocalError "person")
  | Some p =>
      Ok {| person := Some p;
            person_data := append_message (person_data st) p message |}
  end.

Definition whatsapp_loop (lines : list str) : result wa_state :=
  for_each whatsapp_line lines {| person := None; person_data := [] |}.

(** The message group built by the loop. *)
Definition attribute_whatsapp (lines : list str) : result (dict (list str)) :=
  st <- whatsapp_loop lines ;; Ok (person_data st).

(** ** pandas: the [DataFrame] that [pd.read_csv] returns *)

(** A value of the frame is a [str], or it is not: an empty field is the
    float NaN and a numeric column holds numbers (integers, in the model).
    The patterns and [split] only tell a [str] from the rest; [unique],
    [==] and the keys of a dictionary compare the values. *)
Inductive cell : Type :=
| Str (s : str)
| NaN
| Num (x : Z).

(** A label of the row index.  The program does one thing with it, the
    comparison [index == len(self.file_data) - 1]: [IntLabel i] is a label
    that equals the integer [i]; the other labels equal no integer (text,
    a float with a fraction, the tuple of a MultiIndex). *)
Inductive label : Type :=
| IntLabel (i : Z)
| StrLabel (s : str)
| OtherLabel.

(** [index == n] for an integer [n] *)
Definition label_is (l : label) (n : Z) : bool :=
  match l with
  | IntLabel i => (i =? n)%Z
  | _ => false
  end.

(** The row labels from the first row to the last, and the columns in
    file order, each with its label and its cells from the first row to
    the last. *)
Record DataFrame : Type := mk_frame {
  index : list label;
  data : list (str * list cell)
}.

(** The index of a file whose rows have as many fields as its header:
    [RangeIndex(0, n)].  When the rows have one field more, [read_csv]
    takes the first field of every row for its label. *)
Definition range_index (n : nat) : list label :=
  map (fun i => IntLabel (Z.of_nat i)) (seq 0 n).

Definition columns (df : DataFrame) : list str := map fst (data df).

(** [len(df)] *)
Definition len (df : DataFrame) : nat := List.length (index df).

(** [df.shape] *)
Definition shape (df : DataFrame) : nat * nat :=
  (len df, List.length (data df)).

Fixpoint lookup (cols : list (str * list cell)) (col : str)
  : option (list cell) :=
  match cols with
  | [] => None
  | (l, cells) :: cols' =>
      if str_eqb l col then Some cells else lookup cols' col
  end.

Definition column (df : DataFrame) (col : str) : option (list cell) :=
  lookup (data df) col.

(** [df[key]] for a key that is a label or [None]. *)
Definition getitem (df : DataFrame) (key : option str) : result (list cell) :=
  match key with
  | None => Raise (KeyError None)
  | Some col =>
      match column df col with
      | Some cells => Ok cells
      | None => Raise (KeyError (Some col))
      end
  end.

(** [df.iterrows()], seen from one column: the label of every row with
    the cell of the row in that column. *)
Definition iterrows (df : DataFrame) (cells : list cell)
  : list (label * cell) :=
  combine (index df) cells.

(** The [str] values of a column. *)
Fixpoint texts (cells : list cell) : list str :=
  match cells with
  | [] => []
  | Str s :: rest => s :: texts rest
  | _ :: rest => texts rest
  end.

Definition mem (s : str) (l : list str) : bool := existsb (str_eqb s) l.

(** The distinct values in order of first appearance. *)
Fixpoint unique_from (seen : list str) (l : list str) : list str :=
  match l with
  | [] => []
  | s :: rest =>
      if mem s seen then unique_from seen rest
      else s :: unique_from (s :: seen) rest
  end.

(** [a == b] on two values: NaN equals nothing, not even NaN. *)
Definition cell_eq (a b : cell) : bool :=
  match a, b with
  | Str s, Str t => str_eqb s t
  | Num x, Num y => (x =? y)%Z
  | _, _ => false
  end.

(** The same value for [unique] and as a key of a dictionary, where NaN
    is one value. *)
Definition same_value (a b : cell) : bool :=
  match a, b with
  | NaN, NaN => true
  | _, _ => cell_eq a b
  end.

Definition seen_value (c : cell) (l : list cell) : bool :=
  existsb (same_value c) l.

Fixpoint unique_values (seen : list cell) (l : list cell) : list cell :=
  match l with
  | [] => []
  | c :: rest =>
      if seen_value c seen then unique_values seen rest
      else c :: unique_values (c :: seen) rest
  end.

(** [series.unique()]: the distinct values of the column in order of first
    appearance, NaN among them when a cell is empty. *)
Definition unique (cells : list cell) : list cell := unique_values [] cells.

(** [series == name] *)
Definition cell_is (name : cell) (c : cell) : bool := cell_eq c name.

(** [df.loc[df[name_col] == name]]: the rows selected by a mask. *)
Fixpoint select {A} (mask : list bool) (cells : list A) : list A :=
  match mask, cells with
  | b :: mask', c :: cells' =>
      if b then c :: select mask' cells' else select mask' cells'
  | _, _ => []
  end.

Definition loc (df : DataFrame) (mask : list bool) : DataFrame :=
  {| index := select mask (index df);
     data := map (fun lc => (fst lc, select mask (snd lc))) (data df) |}.

(** [self.word_data]: a dictionary whose keys are the names, [str] values
    in a chat log and values of the name column in a table. *)
Definition names_dict := list (cell * dict nat).

(** [self.word_data[name] = words] *)
Fixpoint set_words (wd : names_dict) (name : cell) (words : dict nat)
  : names_dict :=
  match wd with
  | [] => [(name, words)]
  | (k, v) :: wd' =>
      if same_value k name then (k, words) :: wd'
      else (k, v) :: set_words wd' name words
  end.

(** ** The generator *)

Section Generator.

(** [str.upper] on a code point above U+007F, as the Unicode tables of the
    interpreter give it (one code point may become several). *)
Variable upper_nonascii : char -> str.

Definition upper_char (c : char) : str :=
  if is_lower_az c then [c - 32]
  else if c <? 128 then [c]
  else upper_nonascii c.

(** [s.upper()] *)
Definition upper (s : str) : str := flat_map upper_char s.

(** *** [_extract_words] *)

(** [for char in self.illegal_chars: word = word.replace(char, '')] *)
Definition strip_illegal (illegal_chars : str) (word : str) : str :=
  fold_left (fun w c => replace_char c w) illegal_chars word.

(** [try: word_freq[word] += 1]  [except KeyError: word_freq[word] = 1] *)
Definition count_word (word_freq : dict nat) (word : str) : dict nat :=
  match dict_get word_freq word with
  | Some n => dict_set word_freq word (n + 1)%nat
  | None => dict_set word_freq word 1%nat
  end.

(** The body of [for word in unparsed_word_list]. *)
Definition parse_word (illegal_chars : str) (word_freq : dict nat) (word : str)
  : dict nat :=
  let word := strip_illegal illegal_chars (upper word) in
  if re_alphanumeric word then count_word word_freq word else word_freq.

Definition _extract_words (illegal_chars : str) (message_list : list str)
  : dict nat :=
  let unparsed_word_list := flat_map split message_list in
  fold_left (parse_word illegal_chars) unparsed_word_list [].

(** [_extract_words] on a column: [message.split()] on a value that is not
    a [str] raises [AttributeError], and nothing is observable before it. *)
Definition extract_series (illegal_chars : str) (messages : list cell)
  : result (dict nat) :=
  if forallb (fun c => match c with Str _ => true | _ => false end) messages
  then Ok (_extract_words illegal_chars (texts messages))
  else Raise AttributeError.

(** *** [_check_file] *)

(** What the file was read into, by [self.file_type]. *)
Inductive file_data : Type :=
| Csv (df : DataFrame)
| Whatsapp (lines : list str)
| Unknown.

Definition _check_file (fd : file_data) : result unit :=
  match fd with
  | Csv df =>
      let (rows, cols) := shape df in
      if (3 <? cols)%nat then
        Raise (Exception "CSV appears to have more than 3 columns. WordCloudGenerator cannot parse this file")
      else if (rows <? 1)%nat then
        Raise (Exception "CSV appears to have no rows. WordCloudGenerator cannot parse this file")
      else Ok tt
  | Whatsapp _ => Ok tt
  | Unknown => Raise (Exception "Specified file is of unknown type")
  end.

(** *** [_parse_csv] *)

Record roles : Type := mk_roles {
  name_col : option str;
  time_col : option str;
  message_col : option str
}.

Definition no_roles : roles :=
  {| name_col := None; time_col := None; message_col := None |}.

(** The truth value of a variable that holds [None] or a label. *)
Definition truthy (v : option str) : bool :=
  match v with
  | Some (_ :: _) => true
  | _ => false
  end.

(** [for index, row in self.file_data.iterrows()] over the rows of one
    column: a cell that fails the pattern breaks the loop, a value that is
    not a [str] makes [match] raise [TypeError], and on a row whose label
    passes [index == len(self.file_data) - 1] the role is assigned when
    [accept] holds; the loop goes on after that.  [hit] tells whether the
    assignment has happened. *)
Fixpoint scan_rows (re : str -> bool) (accept : bool) (last : Z)
  (rows : list (label * cell)) (hit : bool) : result bool :=
  match rows with
  | [] => Ok hit
  | (index, Str s) :: rest =>
      if re s
      then scan_rows re accept last rest
             (hit || (label_is index last && accept))
      else Ok hit
  | (_, _) :: _ => Raise TypeError
  end.

Definition test_column (df : DataFrame) (col : str) (re : str -> bool)
  (accept : bool) : result bool :=
  cells <- getitem df (Some col) ;;
  scan_rows re accept (Z.of_nat (len df) - 1)%Z (iterrows df cells) false.

(** [len(self.file_data[col].unique()) > 255] rejects the column. *)
Definition few_names (df : DataFrame) (col : str) : bool :=
  match column df col with
  | Some cells => (List.length (unique cells) <=? 255)%nat
  | None => false
  end.

(** The body of [for col in col_list]. *)
Definition check_column (df : DataFrame) (r : roles) (col : str) : result roles :=
  let message (r : roles) : roles :=
    if truthy (message_col r) then r
    else {| name_col := name_col r; time_col := time_col r;
            message_col := Some col |} in
  let names (r : roles) : result roles :=
    if truthy (name_col r) then Ok (message r)
    else
      hit <- test_column df col re_name (few_names df col) ;;
      let r' := if hit
                then {| name_col := Some col; time_col := time_col r;
                        message_col := message_col r |}
                else r in
      if truthy (name_col r') then Ok r' else Ok (message r') in
  if truthy (time_col r) then names r
  else
    hit <- test_column df col re_timestamp true ;;
    let r' := if hit
              then {| name_col := name_col r; time_col := Some col;
                      message_col := message_col r |}
              else r in
    if truthy (time_col r') then Ok r' else names r'.

Definition infer_roles (df : DataFrame) : result roles :=
  for_each (check_column df) (columns df) no_roles.

(** The body of [for name in names]. *)
Definition words_of_name (illegal_chars : str) (df : DataFrame) (r : roles)
  (word_data : names_dict) (name : cell) : result names_dict :=
  name_cells <- getitem df (name_col r) ;;
  messages <- getitem (loc df (map (cell_is name) name_cells)) (message_col r) ;;
  words <- extract_series illegal_chars messages ;;
  Ok (set_words word_data name words).

Definition _parse_csv (illegal_chars : str) (df : DataFrame)
  (word_data : names_dict) : result names_dict :=
  r <- infer_roles df ;;
  name_cells <- getitem df (name_col r) ;;
  let names := unique name_cells in
  for_each (words_of_name illegal_chars df r) names word_data.

(** *** [_parse_whatsapp] *)

Definition _parse_whatsapp (illegal_chars : str) (lines : list str)
  (word_data : names_dict) : result names_dict :=
  person_data <- attribute_whatsapp lines ;;
  Ok (fold_left
        (fun wd item => set_words wd (Str (fst item))
                          (_extract_words illegal_chars (snd item)))
        person_data word_data).

(** *** [generate_cloud] *)

(** The result is the sequence of calls of [_generate_cloud_from_list]:
    one per item of [self.word_data], which is empty on a new object. *)
Definition generate_cloud (illegal_chars : str) (fd : file_data)
  : result names_dict :=
  match fd with
  | Csv df => _parse_csv illegal_chars df []
  | Whatsapp lines => _parse_whatsapp illegal_chars lines []
  | Unknown => Ok []
  end.

(** [wc = WordCloudGenerator(cmd_args)] followed by [wc.generate_cloud()];
    the constructor runs [_check_file]. *)
Definition run (illegal_chars : str) (fd : file_data)
  : result names_dict :=
  _ <- _check_file fd ;; generate_cloud illegal_chars fd.

End Generator.

(** *** [_generate_cloud_from_list]: the name of the image

    [f"wordcloud_{name}_{self.mask.stem}_{colour_name}.png"], where
    [colour_name] is ["custom_colour"] when the colour is ["infer"]. *)
Definition colour_name (colour : str) : str :=
  if str_eqb colour (py "infer") then py "custom_colour" else colour.

Definition output_file_name (name stem colour : str) : str :=
  py "wordcloud_" ++ name ++ py "_" ++ stem ++ py "_"
  ++ colour_name colour ++ py ".png".

(** The default of [--ignore]. *)
Definition default_illegal_chars : str := py ".,!?;:".

(** ** Sample inputs *)

(** The three lines of the specification. *)
Definition spec_lines : list str :=
  [py "01/01/2020, 10:00 - Alice: Hi there";
   py "01/01/2020, 10:01 - Bob: Hello!";
   py "Second line from Bob"].

(** The frame of a file whose rows have as many fields as its header. *)
Definition plain_frame (cols : list (str * list cell)) : DataFrame :=
  {| index := range_index (match cols with
                           | [] => 0%nat
                           | (_, cells) :: _ => List.length cells
                           end);
     data := cols |}.

(** Two letters from B to Q for every number below 256: all distinct. *)
Definition two_letters (n : nat) : cell :=
  Str [N.of_nat (66 + n / 16); N.of_nat (66 + n mod 16)].

(** A name-shaped column of [n] distinct values beside a column of text. *)
Definition many_names (n : nat) : DataFrame :=
  plain_frame
    [(py "who", map two_letters (seq 0 n));
     (py "text", repeat (Str (py "hello there!")) n)].

(** Codes of a letter T and digits in the first column, long text in the
    second. *)
Definition codes_and_text : DataFrame :=
  plain_frame
    [(py "A", [Str (py "T1000"); Str (py "T2000")]);
     (py "B", [Str (py "This message is far longer than a name may be");
               Str (py "and so is this one, which also has punctuation!")])].

(** One column of text; one column of names. *)
Definition only_text : DataFrame :=
  plain_frame [(py "text", [Str (py "hello, world!")])].
Definition only_names : DataFrame :=
  plain_frame [(py "who", [Str (py "Alice")])].

(** A file with the header [who,text] and the rows [x,Alice,Hello Bob] and
    [y,Bob,Hello Alice]: the first field of every row is its label. *)
Definition rows_with_text_labels : DataFrame :=
  {| index := [StrLabel (py "x"); StrLabel (py "y")];
     data := [(py "who", [Str (py "Alice"); Str (py "Bob")]);
              (py "text", [Str (py "Hello Bob"); Str (py "Hello Alice")])] |}.


(** * Reference definitions

    What the specification says, stated on its own terms; the theorems
    below compare them with the program. *)

(** The speaker and the text that each line contributes, where [current]
    is the speaker established before the first of the lines. *)
Fixpoint attributed (current : str) (lines : list str) : list (str * str) :=
  match lines with
  | [] => []
  | line :: rest =>
      match re_new_line line with
      | Some (p, m) => (p, m) :: attributed p rest
      | None => (current, line) :: attributed current rest
      end
  end.

(** The texts attributed to [p], in line order. *)
Definition messages_of (p : str) (entries : list (str * str)) : list str :=
  map snd (filter (fun e => str_eqb (fst e) p) entries).

(** A dictionary given by its keys, in order, and a function of the key. *)
Definition tabulate {V} (f : str -> V) (ks : list str) : dict V :=
  map (fun q => (q, f q)) ks.

(** A message group: the speakers in first-seen order, each with its
    messages in line order. *)
Definition group_by_speaker (entries : list (str * str)) : dict (list str) :=
  tabulate (fun p => messages_of p entries) (unique_from [] (map fst entries)).

(** What [_extract_words] does to one token before the test: upper case,
    then every illegal character deleted. *)
Definition normalize (up : char -> str) (illegal_chars token : str) : str :=
  strip_illegal illegal_chars (upper up token).

(** The tokens that are counted, normalized, in order. *)
Definition surviving (up : char -> str) (illegal_chars : str)
  (message_list : list str) : list str :=
  filter re_alphanumeric
    (map (normalize up illegal_chars) (flat_map split message_list)).

Definition occurrences (k : str) (words : list str) : nat :=
  List.length (filter (str_eqb k) words).

(** The frequency table of a list of words: the distinct words in
    first-seen order, each with the number of its occurrences. *)
Definition count_table (words : list str) : dict nat :=
  tabulate (fun k => occurrences k words) (unique_from [] words).

(** The word list of a frequency table: every word as often as it was
    counted, in the order of the table. *)
Definition word_list (word_freq : dict nat) : list str :=
  flat_map (fun kv => repeat (fst kv) (snd kv)) word_freq.

(** The word list written out as one message, the words joined by spaces. *)
Definition serialize (word_freq : dict nat) : str :=
  join (py " ") (word_list word_freq).

(** The words of a table written once each, joined by spaces. *)
Definition serialize_keys (word_freq : dict nat) : str :=
  join (py " ") (keys word_freq).

(** A property of the Unicode tables: no code point has a newline in its
    upper-case form. *)
Definition upper_leaves_lines (up : char -> str) : Prop :=
  forall c, (128 <= c)%N -> ~ In 10%N (up c).

(** A word of [[A-Z0-9]+], with nothing before or after. *)
Definition alphanumeric_word (w : str) : Prop :=
  w <> [] /\ forallb alphanumeric_class w = true.

(** A frame as [pd.read_csv] returns it: the column labels are distinct
    and none is empty (a blank header field is read as "Unnamed: n"), and
    every column has one cell for every row label. *)
Fixpoint distinct (l : list str) : bool :=
  match l with
  | [] => true
  | s :: rest => negb (mem s rest) && distinct rest
  end.

Definition well_formed (df : DataFrame) : bool :=
  distinct (columns df)
  && forallb (fun col => match col with [] => false | _ => true end) (columns df)
  && forallb (fun lc => (List.length (snd lc) =? len df)%nat) (data df).

(** The row labels are [0 .. len - 1], as for a file whose rows have as
    many fields as its header. *)
Definition default_index (df : DataFrame) : Prop :=
  index df = range_index (len df).

Definition is_str (c : cell) : bool :=
  match c with Str _ => true | _ => false end.

(** Every cell of the frame is a [str]. *)
Definition all_str (df : DataFrame) : bool :=
  forallb (fun lc => forallb is_str (snd lc)) (data df).

(** Every cell is a [str] that matches the pattern. *)
Definition all_cells (re : str -> bool) (cells : list cell) : bool :=
  forallb (fun c => match c with Str s => re s | _ => false end) cells.

Definition unassigned (v : option str) : bool :=
  match v with None => true | Some _ => false end.

(** The role rules for one column: the timestamp test, then the name test
    with its bound on distinct values, then the message role by
    elimination; a role that is taken is not given again. *)
Definition assign_role (r : roles) (column : str * list cell) : roles :=
  let (col, cells) := column in
  if unassigned (time_col r) && all_cells re_timestamp cells then
    {| name_col := name_col r; time_col := Some col;
       message_col := message_col r |}
  else if unassigned (name_col r) && all_cells re_name cells
          && (List.length (unique cells) <=? 255)%nat then
    {| name_col := Some col; time_col := time_col r;
       message_col := message_col r |}
  else if unassigned (message_col r) then
    {| name_col := name_col r; time_col := time_col r;
       message_col := Some col |}
  else r.

(** The columns are taken once each, in the order of the table. *)
Definition roles_by_rules (df : DataFrame) : roles :=
  fold_left assign_role (data df) no_roles.

(** The roles without which no word can be attributed. *)
Inductive needed_role : Type := NameRole | MessageRole.

Definition unresolved (r : roles) (which : needed_role) : Prop :=
  match which with
  | NameRole => name_col r = None
  | MessageRole => message_col r = None
  end.

(** No white space in a word. *)
Definition spaceless (w : str) : Prop :=
  forallb (fun c => negb (isspace c)) w = true.

(** Deleting the illegal characters one after the other keeps exactly the
    code points that are none of them. *)
Definition legal (illegal_chars : str) (x : char) : bool :=
  negb (existsb (N.eqb x) illegal_chars).

(** A variable of the role loop holds [None] or a label that is not empty. *)
Definition settled_role (v : option str) : Prop :=
  match v with
  | Some [] => False
  | _ => True
  end.

Definition settled (r : roles) : Prop :=
  settled_role (name_col r) /\ settled_role (time_col r)
  /\ settled_role (message_col r).

(** A speaker name as the new-entry pattern captures it. *)
Definition valid_name (p : str) : Prop :=
  forallb name_class p = true /\ (1 <= List.length p <= 30)%nat.

(** The number of messages of a message group. *)
Definition total_messages (d : dict (list str)) : nat :=
  list_sum (map (fun kv => List.length (snd kv)) d).

(** [word_freq.get(k, 0)] *)
Definition count_of (word_freq : dict nat) (k : str) : nat :=
  match dict_get word_freq k with
  | Some n => n
  | None => 0%nat
  end.

(** The sum of the counts of a table. *)
Definition total_count (word_freq : dict nat) : nat :=
  list_sum (map snd word_freq).

(** A text of ASCII code points. *)
Definition ascii_text (s : str) : Prop := Forall (fun c => (c < 128)%N) s.

Definition is_letter_or_digit (c : char) : bool :=
  is_upper_AZ c || is_lower_az c || is_digit c.

(** The message cells of the rows whose name cell is [who], in row order. *)
Definition rows_of (who : cell) (names messages : list cell) : list cell :=
  select (map (cell_is who) names) messages.

(** [str.upper] on an ASCII code point. *)
Definition ascii_upper (c : char) : char :=
  if is_lower_az c then c - 32 else c.

(** The columns that hold a role. *)
Definition opt_list (v : option str) : list str :=
  match v with
  | Some c => [c]
  | None => []
  end.

Definition role_columns (r : roles) : list str :=
  opt_list (name_col r) ++ opt_list (time_col r) ++ opt_list (message_col r).

(** A dictionary of tables whose keys are [str] values, as
    [self.word_data] holds it. *)
Definition named {V} (d : dict V) : list (cell * V) :=
  map (fun kv => (Str (fst kv), snd kv)) d.

(** No row label is [last]. *)
Definition never_last (df : DataFrame) : Prop :=
  forall l, In l (index df) -> label_is l (Z.of_nat (len df) - 1) = false.

(** The rows under the labels [k, k+1, ...]. *)
Definition numbered (k : nat) (cells : list cell) : list (label * cell) :=
  combine (map (fun i => IntLabel (Z.of_nat i)) (seq k (List.length cells)))
          cells.

(** A table of three columns in each of its six orders. *)
Definition orders3 {A} (x y z : A) : list (list A) :=
  [[x; y; z]; [x; z; y]; [y; x; z]; [y; z; x]; [z; x; y]; [z; y; x]].

(** * Properties *)

Local Open Scope nat_scope.

(** ** The examples of the specification *)

Example spec_lines_run :
  attribute_whatsapp spec_lines =
  Ok [(py "Alice", [py "Hi there"]);
      (py "Bob", [py "Hello!"; py "Second line from Bob"])].
Proof. vm_compute. reflexivity. Qed.

Example spec_words_run : forall up,
  _extract_words up default_illegal_chars
    [py "Hello!"; py "WORLD."; py "foo-bar"; py "123"] =
  [(py "HELLO", 1); (py "WORLD", 1); (py "123", 1)].
Proof. intros. vm_compute. reflexivity. Qed.

(** ** Strings and dictionaries *)

Lemma str_eqb_eq : forall a b, str_eqb a b = true <-> a = b.
Proof.
  induction a as [|x a IH]; destruct b as [|y b]; simpl; split; intro H;
    try reflexivity; try discriminate.
  - apply andb_true_iff in H as [Hx Hab].
    apply N.eqb_eq in Hx. apply IH in Hab. congruence.
  - injection H as -> ->. rewrite N.eqb_refl. simpl. now apply IH.
Qed.

Lemma str_eqb_refl : forall a, str_eqb a a = true.
Proof. intro a. now apply str_eqb_eq. Qed.

Lemma str_eqb_neq : forall a b, str_eqb a b = false <-> a <> b.
Proof.
  intros a b. split.
  - intros H E. apply str_eqb_eq in E. congruence.
  - intro H. destruct (str_eqb a b) eqn:E; [|reflexivity].
    apply str_eqb_eq in E. contradiction.
Qed.

Lemma str_eqb_sym : forall a b, str_eqb a b = str_eqb b a.
Proof.
  intros a b. destruct (str_eqb a b) eqn:E.
  - apply str_eqb_eq in E. subst. now rewrite str_eqb_refl.
  - symmetry. apply str_eqb_neq. apply str_eqb_neq in E. congruence.
Qed.

Lemma mem_In : forall s l, mem s l = true <-> In s l.
Proof.
  intros s l. unfold mem. rewrite existsb_exists. split.
  - intros [x [Hx E]]. apply str_eqb_eq in E. now subst.
  - intro H. exists s. split; [assumption | apply str_eqb_refl].
Qed.

Lemma mem_false : forall s l, mem s l = false <-> ~ In s l.
Proof.
  intros s l. rewrite <- mem_In. destruct (mem s l); split; congruence.
Qed.

Section Dict.
Context {V : Type}.
Implicit Types (d : dict V) (k : str) (v : V).

Lemma dict_get_None : forall d k, dict_get d k = None <-> ~ In k (keys d).
Proof.
  induction d as [|[k' v'] d IH]; simpl; intro k.
  - tauto.
  - destruct (str_eqb k' k) eqn:E.
    + apply str_eqb_eq in E. subst. split; [discriminate | tauto].
    + apply str_eqb_neq in E. rewrite IH. tauto.
Qed.

Lemma dict_get_In : forall d k v, dict_get d k = Some v -> In (k, v) d.
Proof.
  induction d as [|[k' v'] d IH]; simpl; intros k v H; [discriminate|].
  destruct (str_eqb k' k) eqn:E.
  - apply str_eqb_eq in E. injection H as ->. subst. now left.
  - right. now apply IH.
Qed.

Lemma dict_set_absent : forall d k v,
  dict_get d k = None -> dict_set d k v = d ++ [(k, v)].
Proof.
  induction d as [|[k' v'] d IH]; simpl; intros k v H; [reflexivity|].
  destruct (str_eqb k' k); [discriminate|]. now rewrite IH.
Qed.

Lemma dict_set_keys_present : forall d k v v0,
  dict_get d k = Some v0 -> keys (dict_set d k v) = keys d.
Proof.
  induction d as [|[k' v'] d IH]; simpl; intros k v v0 H; [discriminate|].
  destruct (str_eqb k' k); simpl; [reflexivity|].
  f_equal. now apply IH with v0.
Qed.

Lemma dict_get_set_same : forall d k v, dict_get (dict_set d k v) k = Some v.
Proof.
  induction d as [|[k' v'] d IH]; simpl; intros k v.
  - now rewrite str_eqb_refl.
  - destruct (str_eqb k' k) eqn:E; simpl; rewrite E; [reflexivity | apply IH].
Qed.

Lemma dict_get_set_other : forall d k k' v,
  k <> k' -> dict_get (dict_set d k v) k' = dict_get d k'.
Proof.
  induction d as [|[k0 v0] d IH]; simpl; intros k k' v N.
  - apply str_eqb_neq in N. now rewrite N.
  - destruct (str_eqb k0 k) eqn:E; simpl.
    + apply str_eqb_eq in E. subst k0.
      apply str_eqb_neq in N. now rewrite N.
    + destruct (str_eqb k0 k'); [reflexivity | now apply IH].
Qed.

End Dict.

(** ** First-seen order *)

Lemma unique_from_snoc : forall l seen p,
  unique_from seen (l ++ [p]) =
  if mem p seen || mem p l then unique_from seen l
  else unique_from seen l ++ [p].
Proof.
  induction l as [|s l IH]; simpl; intros seen p.
  - rewrite orb_false_r. now destruct (mem p seen).
  - destruct (mem s seen) eqn:Hs.
    + rewrite IH. destruct (str_eqb p s) eqn:E; [|reflexivity].
      apply str_eqb_eq in E. subst. rewrite Hs. reflexivity.
    + rewrite IH. simpl.
      destruct (str_eqb p s); simpl; [now rewrite orb_true_r|].
      now destruct (mem p seen || mem p l).
Qed.

Lemma unique_from_In : forall l seen p,
  In p (unique_from seen l) <-> In p l /\ ~ In p seen.
Proof.
  induction l as [|s l IH]; simpl; intros seen p.
  - tauto.
  - destruct (mem s seen) eqn:Hs.
    + rewrite IH. apply mem_In in Hs. split.
      * tauto.
      * intros [[->|H] N]; tauto.
    + apply mem_false in Hs. simpl. rewrite IH. simpl. split.
      * intros [->|[H N]]; tauto.
      * intros [[->|H] N]; [tauto|].
        destruct (str_eqb s p) eqn:E.
        -- apply str_eqb_eq in E. tauto.
        -- apply str_eqb_neq in E. right. split; [assumption|]. tauto.
Qed.

Lemma unique_from_NoDup : forall l seen, NoDup (unique_from seen l).
Proof.
  induction l as [|s l IH]; simpl; intro seen.
  - constructor.
  - destruct (mem s seen); [apply IH|].
    constructor; [|apply IH].
    rewrite unique_from_In. simpl. tauto.
Qed.

(** ** The sequential attributor *)

Lemma messages_of_snoc : forall q entries p m,
  messages_of q (entries ++ [(p, m)]) =
  messages_of q entries ++ (if str_eqb p q then [m] else []).
Proof.
  intros. unfold messages_of. rewrite filter_app, map_app. simpl.
  now destruct (str_eqb p q).
Qed.

Lemma messages_of_absent : forall q entries,
  ~ In q (map fst entries) -> messages_of q entries = [].
Proof.
  intros q entries. unfold messages_of.
  induction entries as [|[p m] entries IH]; simpl; intro N; [reflexivity|].
  destruct (str_eqb p q) eqn:E.
  - apply str_eqb_eq in E. tauto.
  - apply IH. tauto.
Qed.

Section Tabulate.
Context {V : Type} (f : str -> V).

Lemma tabulate_get : forall ks p,
  dict_get (tabulate f ks) p = if mem p ks then Some (f p) else None.
Proof.
  induction ks as [|q ks IH]; simpl; intro p; [reflexivity|].
  rewrite (str_eqb_sym p q). destruct (str_eqb q p) eqn:E; simpl.
  - apply str_eqb_eq in E. now subst.
  - apply IH.
Qed.

Lemma tabulate_set : forall ks p v,
  NoDup ks -> In p ks ->
  dict_set (tabulate f ks) p v =
  tabulate (fun q => if str_eqb q p then v else f q) ks.
Proof.
  induction ks as [|q ks IH]; simpl; intros p v ND HIn; [contradiction|].
  inversion ND as [|? ? Hq ND']; subst.
  destruct (str_eqb q p) eqn:E.
  - apply str_eqb_eq in E. subst q. f_equal.
    apply map_ext_in. intros a Ha.
    destruct (str_eqb a p) eqn:E'; [|reflexivity].
    apply str_eqb_eq in E'. subst. contradiction.
  - f_equal. apply IH; [assumption|].
    destruct HIn as [->|H]; [|assumption].
    rewrite str_eqb_refl in E. discriminate.
Qed.

End Tabulate.

Lemma append_message_group : forall entries p m,
  append_message (group_by_speaker entries) p m =
  group_by_speaker (entries ++ [(p, m)]).
Proof.
  intros entries p m. unfold append_message, group_by_speaker.
  rewrite tabulate_get, map_app. cbn [map fst].
  rewrite unique_from_snoc. cbn [mem existsb orb].
  destruct (mem p (unique_from [] (map fst entries))) eqn:Hin.
  - assert (HIn : In p (unique_from [] (map fst entries)))
      by now apply mem_In.
    assert (Hm : mem p (map fst entries) = true).
    { apply mem_In. now apply unique_from_In in HIn. }
    rewrite Hm. rewrite tabulate_set by (auto using unique_from_NoDup).
    unfold tabulate. apply map_ext_in. intros q _. rewrite messages_of_snoc.
    rewrite (str_eqb_sym p q). destruct (str_eqb q p) eqn:E.
    + apply str_eqb_eq in E. now subst.
    + now rewrite app_nil_r.
  - assert (Hm : mem p (map fst entries) = false).
    { apply mem_false. intro H. apply mem_false in Hin. apply Hin.
      apply unique_from_In. simpl. tauto. }
    rewrite Hm. rewrite dict_set_absent.
    2:{ rewrite tabulate_get. now rewrite Hin. }
    unfold tabulate. rewrite map_app. simpl. f_equal.
    + apply map_ext_in. intros q Hq. rewrite messages_of_snoc.
      destruct (str_eqb p q) eqn:E.
      * apply str_eqb_eq in E. subst q. apply mem_In in Hq. congruence.
      * now rewrite app_nil_r.
    + rewrite messages_of_snoc, str_eqb_refl.
      rewrite messages_of_absent; [reflexivity|].
      now apply mem_false.
Qed.

Lemma whatsapp_loop_from : forall lines cur entries,
  exists cur',
    for_each whatsapp_line lines
      {| person := Some cur; person_data := group_by_speaker entries |} =
    Ok {| person := Some cur';
          person_data := group_by_speaker (entries ++ attributed cur lines) |}.
Proof.
  induction lines as [|line rest IH]; simpl; intros cur entries.
  - exists cur. now rewrite app_nil_r.
  - unfold whatsapp_line at 1. simpl.
    destruct (re_new_line line) as [[p m]|]; simpl.
    + rewrite append_message_group.
      destruct (IH p (entries ++ [(p, m)])) as [cur' H].
      exists cur'. rewrite H. now rewrite <- app_assoc.
    + rewrite append_message_group.
      destruct (IH cur (entries ++ [(cur, line)])) as [cur' H].
      exists cur'. rewrite H. now rewrite <- app_assoc.
Qed.

(** C1. When the first line matches the new-entry pattern, the loop of
    [_parse_whatsapp] builds exactly the message group of the per-line
    attribution: a matching line contributes its captured text under its
    captured speaker, who becomes the current speaker; any other line
    contributes itself, whole and as an entry of its own, under the
    current speaker; the keys come in first-seen order and every speaker's
    messages in line order.  The three lines of the specification give
    Alice: ["Hi there"], Bob: ["Hello!", "Second line from Bob"]. *)
Theorem parse_whatsapp_groups_by_speaker :
  (forall first rest p0 m0 cur,
     re_new_line first = Some (p0, m0) ->
     attribute_whatsapp (first :: rest) =
     Ok (group_by_speaker (attributed cur (first :: rest))))
  /\ attribute_whatsapp spec_lines =
     Ok [(py "Alice", [py "Hi there"]);
         (py "Bob", [py "Hello!"; py "Second line from Bob"])].
Proof.
  split; [|exact spec_lines_run].
  intros first rest p0 m0 cur Hfirst.
  unfold attribute_whatsapp, whatsapp_loop. simpl.
  unfold whatsapp_line at 1. rewrite Hfirst. simpl.
  change (append_message [] p0 m0)
    with (append_message (group_by_speaker []) p0 m0).
  rewrite append_message_group.
  destruct (whatsapp_loop_from rest p0 ([] ++ [(p0, m0)])) as [cur' H].
  rewrite H. reflexivity.
Qed.

Lemma parse_whatsapp_groups_by_speaker_witness :
  re_new_line (py "01/01/2020, 10:00 - Alice: Hi there")
  = Some (py "Alice", py "Hi there")
  /\ attribute_whatsapp
       [py "01/01/2020, 10:00 - Alice: Hi there"; py "and more"] =
     Ok (group_by_speaker
           (attributed []
              [py "01/01/2020, 10:00 - Alice: Hi there"; py "and more"])).
Proof.
  split; [vm_compute; reflexivity|].
  apply (proj1 parse_whatsapp_groups_by_speaker _ _ (py "Alice") (py "Hi there")).
  vm_compute. reflexivity.
Defined.

(** ** Pattern matching *)

Lemma span_app : forall p s body rest,
  span p s = (body, rest) -> s = body ++ rest.
Proof.
  induction s as [|c s IH]; simpl; intros body rest H.
  - now injection H as <- <-.
  - destruct (p c).
    + destruct (span p s) as [body' rest'] eqn:E.
      injection H as <- <-. simpl. f_equal. now apply IH.
    + now injection H as <- <-.
Qed.

Lemma span_run : forall p s body rest,
  span p s = (body, rest) -> forallb p body = true.
Proof.
  induction s as [|c s IH]; simpl; intros body rest H.
  - now injection H as <- <-.
  - destruct (p c) eqn:Hc.
    + destruct (span p s) as [body' rest'] eqn:E.
      injection H as <- <-. simpl. rewrite Hc. now apply (IH _ rest').
    + now injection H as <- <-.
Qed.

(** The body stops at the first code point outside the class. *)
Lemma span_stop : forall p body c rest,
  forallb p body = true -> p c = false ->
  span p (body ++ c :: rest) = (body, c :: rest).
Proof.
  induction body as [|x body IH]; simpl; intros c rest Hrun Hc.
  - now rewrite Hc.
  - apply andb_true_iff in Hrun as [Hx Hrun].
    rewrite Hx, IH by assumption. reflexivity.
Qed.

Lemma span_all : forall p body,
  forallb p body = true -> span p body = (body, []).
Proof.
  induction body as [|x body IH]; simpl; intro Hrun; [reflexivity|].
  apply andb_true_iff in Hrun as [Hx Hrun].
  now rewrite Hx, IH.
Qed.

Lemma match_items_app : forall items pre s,
  match_items items pre = Some [] -> match_items items (pre ++ s) = Some s.
Proof.
  induction items as [|p items IH]; simpl; intros pre s H.
  - destruct pre; [reflexivity | discriminate].
  - destruct pre as [|c pre]; [discriminate|]. simpl.
    destruct (p c); [now apply IH | discriminate].
Qed.

Lemma match_items_split : forall items s rest,
  match_items items s = Some rest ->
  exists pre, s = pre ++ rest /\ match_items items pre = Some [].
Proof.
  induction items as [|p items IH]; simpl; intros s rest H.
  - injection H as ->. now exists [].
  - destruct s as [|c s]; [discriminate|].
    destruct (p c) eqn:Hc; [|discriminate].
    destruct (IH _ _ H) as [pre [-> Hpre]].
    exists (c :: pre). simpl. now rewrite Hc.
Qed.

(** What the matchers accept, read off the patterns.  A pattern
    [^[cls]{lo,hi}$] accepts the strings made of [lo] to [hi] members of
    the class, with or without one final newline. *)
Lemma match_class_spec : forall cls lo hi s,
  cls 10%N = false ->
  (match_class cls lo hi s = true <->
   exists body,
     (s = body \/ s = body ++ [10%N])
     /\ forallb cls body = true
     /\ lo <= List.length body
     /\ match hi with Some h => List.length body <= h | None => True end).
Proof.
  intros cls lo hi s Hnl. unfold match_class. split.
  - destruct (span cls s) as [body rest] eqn:E. intro H.
    apply andb_true_iff in H as [H Hend].
    apply andb_true_iff in H as [Hlo Hhi]. apply Nat.leb_le in Hlo.
    exists body. split; [|split; [|split]].
    + rewrite (span_app _ _ _ _ E).
      destruct rest as [|c [|c' rest]]; [left | right | discriminate].
      * now rewrite app_nil_r.
      * simpl in Hend. apply N.eqb_eq in Hend. now subst.
    + now apply (span_run _ _ _ _ E).
    + exact Hlo.
    + destruct hi; [now apply Nat.leb_le in Hhi | exact I].
  - intros [body [Hs [Hbody [Hlo Hhi]]]].
    assert (E : exists rest, span cls s = (body, rest) /\ at_dollar rest = true).
    { destruct Hs as [->| ->].
      - exists []. now rewrite span_all.
      - exists [10%N]. now rewrite span_stop. }
    destruct E as [rest [-> Hend]]. rewrite Hend.
    apply Nat.leb_le in Hlo. rewrite Hlo. simpl. rewrite andb_true_r.
    destruct hi; [now apply Nat.leb_le | reflexivity].
Qed.

(** [re_new_line] accepts a line in one way only: the date and time, a
    name of 1 to 30 name characters, a colon and a space, a text of at
    least one character without newline, and nothing more but for one
    final newline; the groups are the name and the text. *)
Lemma re_new_line_spec : forall line p m,
  re_new_line line = Some (p, m) <->
  exists pre tail,
    line = pre ++ p ++ py ": " ++ m ++ tail
    /\ match_items datetime_prefix pre = Some []
    /\ forallb name_class p = true /\ 1 <= List.length p <= 30
    /\ forallb dot m = true /\ 1 <= List.length m
    /\ at_dollar tail = true.
Proof.
  intros line p m. unfold re_new_line. split.
  - destruct (match_items datetime_prefix line) as [rest|] eqn:Epre;
      [|discriminate].
    destruct (match_items_split _ _ _ Epre) as [pre [-> Hpre]].
    destruct (span name_class rest) as [who rest1] eqn:Ename.
    destruct ((1 <=? List.length who) && (List.length who <=? 30)) eqn:Elen;
      [|discriminate].
    destruct (match_items [lit ":"; lit " "] rest1) as [rest2|] eqn:Esep;
      [|discriminate].
    apply match_items_split in Esep as [sep [-> Hsep]].
    assert (sep = py ": ") as ->.
    { destruct sep as [|c1 [|c2 [|c3 sep]]]; simpl in Hsep;
        try discriminate;
        try (destruct (lit ":" c1); discriminate).
      - destruct (lit ":" c1) eqn:E1; [|discriminate].
        destruct (lit " " c2) eqn:E2; [|discriminate].
        apply N.eqb_eq in E1. apply N.eqb_eq in E2. now subst.
      - destruct (lit ":" c1); [|discriminate].
        destruct (lit " " c2); discriminate. }
    destruct (span dot rest2) as [text tail] eqn:Etext.
    destruct ((1 <=? List.length text) && at_dollar tail) eqn:Eok;
      [|discriminate].
    intro H. injection H as <- <-.
    apply andb_true_iff in Elen as [L1 L2].
    apply Nat.leb_le in L1. apply Nat.leb_le in L2.
    apply andb_true_iff in Eok as [L3 Hend]. apply Nat.leb_le in L3.
    exists pre, tail. repeat split; try assumption.
    + rewrite (span_app _ _ _ _ Ename), (span_app _ _ _ _ Etext).
      reflexivity.
    + now apply (span_run _ _ _ _ Ename).
    + now apply (span_run _ _ _ _ Etext).
  - intros [pre [tail [-> [Hpre [Hp [[L1 L2] [Hm [L3 Hend]]]]]]]].
    rewrite (match_items_app _ _ _ Hpre).
    change (py ": " ++ m ++ tail) with (58%N :: 32%N :: m ++ tail).
    match goal with
    | |- context [span name_class ?x] =>
        replace (span name_class x) with (p, 58%N :: 32%N :: m ++ tail)
          by (symmetry; apply span_stop; [assumption | reflexivity])
    end.
    apply Nat.leb_le in L1. apply Nat.leb_le in L2. rewrite L1, L2.
    cbn [andb match_items]. change (lit ":" 58%N) with true.
    change (lit " " 32%N) with true. cbv iota.
    assert (E : span dot (m ++ tail) = (m, tail)).
    { destruct tail as [|c [|c' tail]]; try discriminate.
      - rewrite app_nil_r. now apply span_all.
      - simpl in Hend. apply N.eqb_eq in Hend. subst c.
        now apply span_stop. }
    rewrite E. apply Nat.leb_le in L3. now rewrite L3, Hend.
Qed.

(** ** Lines that are not new entries *)

Lemma continuation_line : forall cur d line,
  re_new_line line = None ->
  whatsapp_line {| person := Some cur; person_data := d |} line =
  Ok {| person := Some cur; person_data := append_message d cur line |}.
Proof. intros cur d line H. unfold whatsapp_line. now rewrite H. Qed.

Lemma append_message_get : forall d p m,
  dict_get (append_message d p m) p =
  Some (match dict_get d p with Some l => l | None => [] end ++ [m]).
Proof.
  intros d p m. unfold append_message.
  destruct (dict_get d p); now rewrite dict_get_set_same.
Qed.

Lemma empty_message_no_match : forall pre name,
  match_items datetime_prefix pre = Some [] ->
  forallb name_class name = true ->
  re_new_line (pre ++ name ++ py ": ") = None.
Proof.
  intros pre name Hpre Hname. unfold re_new_line.
  rewrite (match_items_app _ _ _ Hpre).
  change (py ": ") with ([58; 32]%N).
  match goal with
  | |- context [span name_class ?x] =>
      replace (span name_class x) with (name, [58%N; 32%N])
        by (symmetry; apply span_stop; [assumption | reflexivity])
  end.
  destruct ((1 <=? List.length name) && (List.length name <=? 30));
    reflexivity.
Qed.

(** C10. A line with a well-formed date-time prefix and speaker name but
    nothing after the colon and space does not match the new-entry
    pattern; the loop takes it as a continuation: the whole line, prefix
    and name included, becomes a new last entry of the current speaker's
    list and the current speaker stays the same.  So it is for
    "01/01/2020, 10:00 - Alice: ". *)
Theorem empty_message_is_continuation :
  (forall pre name cur d,
     match_items datetime_prefix pre = Some [] ->
     forallb name_class name = true ->
     1 <= List.length name <= 30 ->
     let line := pre ++ name ++ py ": " in
     re_new_line line = None
     /\ whatsapp_line {| person := Some cur; person_data := d |} line =
        Ok {| person := Some cur; person_data := append_message d cur line |}
     /\ dict_get (append_message d cur line) cur =
        Some (match dict_get d cur with Some l => l | None => [] end
              ++ [line]))
  /\ re_new_line (py "01/01/2020, 10:00 - Alice: ") = None
  /\ attribute_whatsapp
       [py "01/01/2020, 10:00 - Bob: Hello!"; py "01/01/2020, 10:00 - Alice: "]
     = Ok [(py "Bob", [py "Hello!"; py "01/01/2020, 10:00 - Alice: "])].
Proof.
  split; [|split; vm_compute; reflexivity].
  intros pre name cur d Hpre Hname _ line.
  assert (H : re_new_line line = None)
    by now apply empty_message_no_match.
  split; [exact H|]. split.
  - now apply continuation_line.
  - apply append_message_get.
Qed.

Lemma empty_message_is_continuation_witness :
  re_new_line (py "17/01/2018, 19:15 - " ++ py "Firstname 1" ++ py ": ") = None.
Proof.
  refine (proj1 (proj1 empty_message_is_continuation
                   (py "17/01/2018, 19:15 - ") (py "Firstname 1") (py "Bob") []
                   _ _ _)).
  - vm_compute. reflexivity.
  - vm_compute. reflexivity.
  - vm_compute. lia.
Defined.

(** ** A first line that is not a new entry *)

Lemma unbound_person : forall first rest,
  re_new_line first = None ->
  whatsapp_loop (first :: rest) = Raise (UnboundLocalError "person").
Proof.
  intros first rest H. unfold whatsapp_loop. simpl.
  unfold whatsapp_line. rewrite H. reflexivity.
Qed.

(** C9, as the program has it.  When the first line fails the new-entry
    pattern, the [AttributeError] of the failed match is caught and the
    line is taken as a continuation; reading the current speaker, which
    is still unbound, then raises [UnboundLocalError], which nothing
    catches: the loop, [_parse_whatsapp], [generate_cloud] and the whole
    run end with it, and no speaker, sentinel or other, is recorded. *)
Theorem first_line_unmatched_raises :
  forall up illegal_chars first rest word_data,
    re_new_line first = None ->
    attribute_whatsapp (first :: rest) = Raise (UnboundLocalError "person")
    /\ _parse_whatsapp up illegal_chars (first :: rest) word_data
       = Raise (UnboundLocalError "person")
    /\ run up illegal_chars (Whatsapp (first :: rest))
       = Raise (UnboundLocalError "person").
Proof.
  intros up illegal_chars first rest word_data H.
  assert (A : attribute_whatsapp (first :: rest)
              = Raise (UnboundLocalError "person")).
  { unfold attribute_whatsapp. now rewrite unbound_person. }
  split; [exact A|]. split.
  - unfold _parse_whatsapp. now rewrite A.
  - unfold run, generate_cloud, _parse_whatsapp. simpl. now rewrite A.
Qed.

Lemma first_line_unmatched_raises_witness :
  attribute_whatsapp [py "Messages to this chat are now secured"; py "x"]
  = Raise (UnboundLocalError "person").
Proof.
  refine (proj1 (first_line_unmatched_raises (fun c => [c]) default_illegal_chars
                   (py "Messages to this chat are now secured") [py "x"] [] _)).
  vm_compute. reflexivity.
Defined.

(** The exception that ends the run is not an [AttributeError]. *)
Lemma first_line_unmatched_not_attribute_error :
  re_new_line (py "Second line from Bob") = None
  /\ attribute_whatsapp [py "Second line from Bob"] <> Raise AttributeError.
Proof.
  split; [vm_compute; reflexivity|].
  vm_compute. intro H. discriminate H.
Qed.

(** ** Counting words *)

Lemma occurrences_snoc : forall k ws w,
  occurrences k (ws ++ [w]) =
  occurrences k ws + (if str_eqb k w then 1 else 0).
Proof.
  intros. unfold occurrences. rewrite filter_app, length_app. simpl.
  now destruct (str_eqb k w).
Qed.

Lemma occurrences_absent : forall k ws, ~ In k ws -> occurrences k ws = 0.
Proof.
  intros k ws. unfold occurrences.
  induction ws as [|w ws IH]; simpl; intro N; [reflexivity|].
  destruct (str_eqb k w) eqn:E.
  - apply str_eqb_eq in E. subst. tauto.
  - apply IH. tauto.
Qed.

Lemma occurrences_present : forall k ws, In k ws -> 1 <= occurrences k ws.
Proof.
  intros k ws. unfold occurrences.
  induction ws as [|w ws IH]; simpl; intro H; [contradiction|].
  destruct (str_eqb k w) eqn:E; simpl; [lia|].
  apply IH. destruct H as [->|H]; [|assumption].
  rewrite str_eqb_refl in E. discriminate.
Qed.

Lemma tabulate_In : forall {V} (f : str -> V) ks k v,
  In (k, v) (tabulate f ks) <-> In k ks /\ v = f k.
Proof.
  intros V f ks k v. unfold tabulate. rewrite in_map_iff. split.
  - intros [q [E H]]. injection E as <- <-. split; [assumption | reflexivity].
  - intros [H ->]. now exists k.
Qed.

Lemma count_word_table : forall ws w,
  count_word (count_table ws) w = count_table (ws ++ [w]).
Proof.
  intros ws w. unfold count_word, count_table.
  rewrite tabulate_get, unique_from_snoc. cbn [mem existsb orb].
  destruct (mem w (unique_from [] ws)) eqn:Hin.
  - assert (HIn : In w (unique_from [] ws)) by now apply mem_In.
    assert (Hm : mem w ws = true).
    { apply mem_In. now apply unique_from_In in HIn. }
    rewrite Hm. rewrite tabulate_set by (auto using unique_from_NoDup).
    unfold tabulate. apply map_ext_in. intros q _.
    rewrite occurrences_snoc. destruct (str_eqb q w) eqn:E.
    + apply str_eqb_eq in E. now subst.
    + now rewrite Nat.add_0_r.
  - assert (Hm : mem w ws = false).
    { apply mem_false. intro H. apply mem_false in Hin. apply Hin.
      apply unique_from_In. simpl. tauto. }
    rewrite Hm. rewrite dict_set_absent.
    2:{ rewrite tabulate_get. now rewrite Hin. }
    unfold tabulate. rewrite map_app. simpl. f_equal.
    + apply map_ext_in. intros q Hq. rewrite occurrences_snoc.
      destruct (str_eqb q w) eqn:E.
      * apply str_eqb_eq in E. subst q. apply mem_In in Hq. congruence.
      * now rewrite Nat.add_0_r.
    + rewrite occurrences_snoc, str_eqb_refl.
      rewrite occurrences_absent; [reflexivity|].
      now apply mem_false.
Qed.

Lemma parse_words_from : forall up illegal_chars tokens ws,
  fold_left (parse_word up illegal_chars) tokens (count_table ws) =
  count_table
    (ws ++ filter re_alphanumeric (map (normalize up illegal_chars) tokens)).
Proof.
  induction tokens as [|t tokens IH]; simpl; intro ws.
  - now rewrite app_nil_r.
  - unfold parse_word at 2. fold (normalize up illegal_chars t).
    destruct (re_alphanumeric (normalize up illegal_chars t)).
    + rewrite count_word_table, IH, <- app_assoc. reflexivity.
    + apply IH.
Qed.

Lemma extract_words_table : forall up illegal_chars message_list,
  _extract_words up illegal_chars message_list =
  count_table (surviving up illegal_chars message_list).
Proof.
  intros. unfold _extract_words, surviving.
  change (@nil (str * nat)) with (count_table []).
  now rewrite parse_words_from.
Qed.

(** ** Tokens hold no white space *)

Lemma split_cons : forall c s,
  split (c :: s) =
  if isspace c then split s
  else match s with
       | [] => [[c]]
       | c' :: _ =>
           if isspace c' then [c] :: split s
           else match split s with
                | w :: ws => (c :: w) :: ws
                | [] => [[c]]
                end
       end.
Proof. intros. destruct s; reflexivity. Qed.

Lemma split_tokens : forall s w,
  In w (split s) -> w <> [] /\ spaceless w.
Proof.
  unfold spaceless.
  induction s as [|c s IH]; intros w H; [contradiction|].
  rewrite split_cons in H.
  assert (Single : isspace c = false -> w = [c] ->
                   w <> [] /\ forallb (fun c => negb (isspace c)) w = true).
  { intros Hc ->. simpl. rewrite Hc. split; [discriminate | reflexivity]. }
  destruct (isspace c) eqn:Hc; [now apply IH|].
  destruct s as [|c' s'].
  - destruct H as [<-|[]]. now apply Single.
  - destruct (isspace c') eqn:Hc'.
    + destruct H as [<-|H]; [now apply Single | now apply IH].
    + destruct (split (c' :: s')) as [|w0 ws] eqn:E.
      * destruct H as [<-|[]]. now apply Single.
      * destruct H as [<-|H].
        -- destruct (IH w0 (or_introl eq_refl)) as [_ Hw0].
           simpl. rewrite Hc, Hw0. split; [discriminate | reflexivity].
        -- apply IH. now right.
Qed.

Lemma spaceless_no_newline : forall w, spaceless w -> ~ In 10%N w.
Proof.
  unfold spaceless. intros w H N.
  rewrite forallb_forall in H. specialize (H _ N).
  vm_compute in H. discriminate H.
Qed.

Lemma upper_char_no_newline : forall up c,
  upper_leaves_lines up -> c <> 10%N -> ~ In 10%N (upper_char up c).
Proof.
  intros up c Hup Hc. unfold upper_char, is_lower_az, in_range.
  destruct ((97 <=? c)%N && (c <=? 122)%N) eqn:Hl.
  - apply andb_true_iff in Hl as [Hl _]. apply N.leb_le in Hl.
    simpl. intros [E|[]]. lia.
  - destruct (c <? 128)%N eqn:H128.
    + simpl. intros [E|[]]. congruence.
    + apply N.ltb_ge in H128. now apply Hup.
Qed.

Lemma upper_no_newline : forall up w,
  upper_leaves_lines up -> ~ In 10%N w -> ~ In 10%N (upper up w).
Proof.
  intros up w Hup Hw H. unfold upper in H.
  apply in_flat_map in H as [c [Hc H]].
  apply (upper_char_no_newline up c Hup); [|assumption].
  intros ->. contradiction.
Qed.

Lemma strip_illegal_In : forall illegal_chars w x,
  In x (strip_illegal illegal_chars w) -> In x w.
Proof.
  unfold strip_illegal.
  induction illegal_chars as [|c cs IH]; simpl; intros w x H; [assumption|].
  apply IH in H. unfold replace_char in H.
  now apply filter_In in H.
Qed.

Lemma normalize_no_newline : forall up illegal_chars t,
  upper_leaves_lines up -> spaceless t ->
  ~ In 10%N (normalize up illegal_chars t).
Proof.
  intros up illegal_chars t Hup Ht H. unfold normalize in H.
  apply strip_illegal_In in H.
  now apply (upper_no_newline up t Hup (spaceless_no_newline t Ht)).
Qed.

(** ** The alphanumeric test *)

Lemma re_alphanumeric_word : forall w,
  re_alphanumeric w = true -> ~ In 10%N w -> alphanumeric_word w.
Proof.
  intros w H Hnl. unfold re_alphanumeric, match_class in H.
  destruct (span alphanumeric_class w) as [body rest] eqn:E.
  apply andb_true_iff in H as [H Hend].
  apply andb_true_iff in H as [Hlen _]. apply Nat.leb_le in Hlen.
  pose proof (span_app _ _ _ _ E) as Hw.
  pose proof (span_run _ _ _ _ E) as Hbody.
  assert (rest = []) as ->.
  { destruct rest as [|c [|c' rest]]; [reflexivity | | discriminate].
    simpl in Hend. apply N.eqb_eq in Hend. subst c.
    exfalso. apply Hnl. rewrite Hw. apply in_or_app. right. now left. }
  rewrite app_nil_r in Hw. subst body. split; [|assumption].
  intros ->. simpl in Hlen. lia.
Qed.

Lemma alphanumeric_word_matches : forall w,
  alphanumeric_word w -> re_alphanumeric w = true.
Proof.
  intros w [Hne Hw]. unfold re_alphanumeric, match_class.
  rewrite span_all by assumption. simpl.
  destruct w; [contradiction | reflexivity].
Qed.

Lemma surviving_words : forall up illegal_chars message_list k,
  upper_leaves_lines up ->
  In k (surviving up illegal_chars message_list) -> alphanumeric_word k.
Proof.
  intros up illegal_chars message_list k Hup H. unfold surviving in H.
  apply filter_In in H as [H Hre].
  apply in_map_iff in H as [t [<- Ht]].
  apply in_flat_map in Ht as [m [_ Ht]].
  apply re_alphanumeric_word; [assumption|].
  apply normalize_no_newline; [assumption|].
  now apply (split_tokens m).
Qed.

(** C3. Every key of the table that [_extract_words] returns is a
    nonempty word over [A-Z0-9] and every count is at least one: the
    table is the count of the tokens that, upper-cased and with the
    illegal characters deleted, pass the alphanumeric test, and a token
    that fails it leaves no key at all.  With the default illegal
    characters, ["Hello!", "WORLD.", "foo-bar", "123"] gives HELLO, WORLD
    and 123 once each; "foo-bar" becomes FOO-BAR, fails the test and is
    left out, and there is no key FOOBAR. *)
Theorem extract_words_keys_alphanumeric :
  forall up illegal_chars message_list,
    upper_leaves_lines up ->
    let word_freq := _extract_words up illegal_chars message_list in
    word_freq = count_table (surviving up illegal_chars message_list)
    /\ (forall k v, In (k, v) word_freq -> alphanumeric_word k /\ 1 <= v)
    /\ (forall k, ~ In k (surviving up illegal_chars message_list) ->
                  dict_get word_freq k = None)
    /\ (let example :=
          _extract_words up default_illegal_chars
            [py "Hello!"; py "WORLD."; py "foo-bar"; py "123"] in
        example = [(py "HELLO", 1); (py "WORLD", 1); (py "123", 1)]
        /\ normalize up default_illegal_chars (py "foo-bar") = py "FOO-BAR"
        /\ re_alphanumeric (py "FOO-BAR") = false
        /\ dict_get example (py "FOO-BAR") = None
        /\ dict_get example (py "FOOBAR") = None).
Proof.
  intros up illegal_chars message_list Hup word_freq.
  assert (T : word_freq = count_table (surviving up illegal_chars message_list))
    by apply extract_words_table.
  split; [exact T|]. split; [|split].
  - intros k v H. rewrite T in H. unfold count_table in H.
    apply tabulate_In in H as [Hk ->].
    apply unique_from_In in Hk as [Hk _]. split.
    + now apply (surviving_words up illegal_chars message_list).
    + now apply occurrences_present.
  - intros k Hk. rewrite T. unfold count_table. rewrite tabulate_get.
    destruct (mem k (unique_from [] (surviving up illegal_chars message_list)))
      eqn:E; [|reflexivity].
    apply mem_In, unique_from_In in E. tauto.
  - vm_compute. repeat split; reflexivity.
Qed.

Lemma extract_words_keys_alphanumeric_witness :
  upper_leaves_lines (fun c => [c])
  /\ _extract_words (fun c => [c]) default_illegal_chars
       [py "Hello, hello world!"] =
     count_table
       (surviving (fun c => [c]) default_illegal_chars
          [py "Hello, hello world!"]).
Proof.
  assert (H : upper_leaves_lines (fun c => [c])).
  { intros c Hc [E|[]]. lia. }
  split; [exact H|].
  exact (proj1 (extract_words_keys_alphanumeric (fun c => [c])
                  default_illegal_chars [py "Hello, hello world!"] H)).
Defined.

(** ** Words that normalization leaves alone *)

Lemma alphanumeric_not_space : forall c,
  alphanumeric_class c = true -> isspace c = false.
Proof.
  intros c H. unfold alphanumeric_class, is_upper_AZ, is_digit, in_range in H.
  assert (R : (48 <= c <= 90)%N).
  { apply orb_true_iff in H as [H|H]; apply andb_true_iff in H as [H1 H2];
      apply N.leb_le in H1; apply N.leb_le in H2; lia. }
  unfold isspace, in_range.
  repeat (apply orb_false_intro);
    first [ apply N.eqb_neq; lia
          | apply andb_false_iff; left; apply N.leb_gt; lia
          | apply andb_false_iff; right; apply N.leb_gt; lia ].
Qed.

Lemma alphanumeric_word_spaceless : forall w,
  alphanumeric_word w -> spaceless w.
Proof.
  intros w [_ H]. unfold spaceless. rewrite forallb_forall in *.
  intros c Hc. now rewrite alphanumeric_not_space by auto.
Qed.

Lemma upper_char_alphanumeric : forall up c,
  alphanumeric_class c = true -> upper_char up c = [c].
Proof.
  intros up c H. unfold alphanumeric_class, is_upper_AZ, is_digit, in_range in H.
  assert (R : (48 <= c <= 90)%N).
  { apply orb_true_iff in H as [H|H]; apply andb_true_iff in H as [H1 H2];
      apply N.leb_le in H1; apply N.leb_le in H2; lia. }
  unfold upper_char, is_lower_az, in_range.
  replace (97 <=? c)%N with false by (symmetry; apply N.leb_gt; lia).
  replace (c <? 128)%N with true by (symmetry; apply N.ltb_lt; lia).
  reflexivity.
Qed.

Lemma upper_alphanumeric : forall up w,
  forallb alphanumeric_class w = true -> upper up w = w.
Proof.
  intros up. unfold upper.
  induction w as [|c w IH]; simpl; intro H; [reflexivity|].
  apply andb_true_iff in H as [Hc Hw].
  now rewrite upper_char_alphanumeric, IH.
Qed.

Lemma strip_illegal_filter : forall illegal_chars w,
  strip_illegal illegal_chars w = filter (legal illegal_chars) w.
Proof.
  unfold strip_illegal, legal.
  induction illegal_chars as [|c cs IH]; simpl; intro w.
  - induction w as [|x w IHw]; simpl; congruence.
  - rewrite IH. unfold replace_char.
    induction w as [|x w IHw]; simpl; [reflexivity|].
    destruct (x =? c)%N; simpl; [exact IHw|].
    destruct (existsb (N.eqb x) cs); simpl; now rewrite IHw.
Qed.

Lemma filter_idempotent : forall {A} (f : A -> bool) l,
  filter f (filter f l) = filter f l.
Proof.
  intros A f. induction l as [|x l IH]; simpl; [reflexivity|].
  destruct (f x) eqn:E; simpl; [rewrite E|]; now rewrite IH.
Qed.

Lemma strip_illegal_idempotent : forall illegal_chars w,
  strip_illegal illegal_chars (strip_illegal illegal_chars w) =
  strip_illegal illegal_chars w.
Proof. intros. rewrite !strip_illegal_filter. apply filter_idempotent. Qed.

Lemma surviving_fixed : forall up illegal_chars message_list k,
  upper_leaves_lines up ->
  In k (surviving up illegal_chars message_list) ->
  normalize up illegal_chars k = k.
Proof.
  intros up illegal_chars message_list k Hup H.
  pose proof (surviving_words _ _ _ _ Hup H) as [_ Hk].
  unfold surviving in H. apply filter_In in H as [H _].
  apply in_map_iff in H as [t [E _]].
  unfold normalize in *. rewrite upper_alphanumeric by assumption.
  rewrite <- E. apply strip_illegal_idempotent.
Qed.

(** ** Splitting a joined word list *)

Lemma isspace_space : isspace 32%N = true.
Proof. reflexivity. Qed.

Lemma split_word_then : forall w rest,
  w <> [] -> spaceless w -> split (w ++ 32%N :: rest) = w :: split rest.
Proof.
  unfold spaceless.
  induction w as [|c w IH]; intros rest Hne Hw; [contradiction|].
  simpl in Hw. apply andb_true_iff in Hw as [Hc Hw].
  apply negb_true_iff in Hc.
  change ((c :: w) ++ 32%N :: rest) with (c :: (w ++ 32%N :: rest)).
  rewrite split_cons, Hc. destruct w as [|c' w'].
  - cbn [app]. rewrite isspace_space, split_cons, isspace_space. reflexivity.
  - assert (Hc' : isspace c' = false).
    { simpl in Hw. apply andb_true_iff in Hw as [Hc' _].
      now apply negb_true_iff in Hc'. }
    rewrite IH by (assumption || discriminate).
    cbn [app]. now rewrite Hc'.
Qed.

Lemma split_word : forall w,
  w <> [] -> spaceless w -> split w = [w].
Proof.
  unfold spaceless.
  induction w as [|c w IH]; intros Hne Hw; [contradiction|].
  simpl in Hw. apply andb_true_iff in Hw as [Hc Hw].
  apply negb_true_iff in Hc.
  rewrite split_cons, Hc. destruct w as [|c' w']; [reflexivity|].
  assert (Hc' : isspace c' = false).
  { simpl in Hw. apply andb_true_iff in Hw as [Hc' _].
    now apply negb_true_iff in Hc'. }
  rewrite IH by (assumption || discriminate). now rewrite Hc'.
Qed.

Lemma split_join : forall ws,
  Forall (fun w => w <> [] /\ spaceless w) ws ->
  split (join (py " ") ws) = ws.
Proof.
  induction ws as [|w ws IH]; intro H; [reflexivity|].
  inversion H as [|? ? [Hne Hw] Hws]; subst.
  destruct ws as [|w2 ws].
  - simpl. now apply split_word.
  - change (join (py " ") (w :: w2 :: ws))
      with (w ++ 32%N :: join (py " ") (w2 :: ws)).
    rewrite split_word_then by assumption.
    now rewrite IH.
Qed.

(** ** The word list of a table *)

Lemma word_list_In : forall d w, In w (word_list d) -> In w (keys d).
Proof.
  unfold word_list, keys. intros d w H.
  apply in_flat_map in H as [[k v] [Hkv H]].
  apply repeat_spec in H. subst. simpl.
  apply in_map_iff. now exists (k, v).
Qed.

Lemma unique_from_repeat : forall k n seen rest,
  mem k seen = true ->
  unique_from seen (repeat k n ++ rest) = unique_from seen rest.
Proof.
  induction n as [|n IH]; simpl; intros seen rest H; [reflexivity|].
  rewrite H. now apply IH.
Qed.

Lemma unique_word_list : forall d seen,
  NoDup (keys d) ->
  (forall k, In k (keys d) -> ~ In k seen) ->
  (forall k v, In (k, v) d -> 1 <= v) ->
  unique_from seen (word_list d) = keys d.
Proof.
  induction d as [|[k v] d IH]; intros seen ND Hseen Hpos; [reflexivity|].
  simpl in ND. inversion ND as [|? ? Hk ND']; subst.
  assert (Hv : 1 <= v) by (apply (Hpos k); now left).
  destruct v as [|n]; [lia|].
  unfold word_list. simpl. fold (word_list d).
  assert (Hks : mem k seen = false).
  { apply mem_false. apply Hseen. now left. }
  rewrite Hks. f_equal.
  rewrite unique_from_repeat by (simpl; now rewrite str_eqb_refl).
  apply IH; [assumption | | ].
  - intros k' Hk' [<-|H]; [contradiction|].
    apply (Hseen k'); [now right | assumption].
  - intros k' v' H. apply (Hpos k'). now right.
Qed.

Lemma occurrences_repeat : forall k k' n rest,
  occurrences k (repeat k' n ++ rest) =
  (if str_eqb k k' then n else 0) + occurrences k rest.
Proof.
  intros k k' n rest. unfold occurrences.
  induction n as [|n IH]; simpl.
  - now destruct (str_eqb k k').
  - destruct (str_eqb k k') eqn:E; simpl; rewrite IH; reflexivity.
Qed.

Lemma occurrences_word_list : forall d k v,
  NoDup (keys d) -> In (k, v) d -> occurrences k (word_list d) = v.
Proof.
  induction d as [|[k0 v0] d IH]; intros k v ND H; [contradiction|].
  simpl in ND. inversion ND as [|? ? Hk0 ND']; subst.
  unfold word_list. simpl. fold (word_list d).
  rewrite occurrences_repeat. destruct H as [E|H].
  - injection E as -> ->. rewrite str_eqb_refl.
    rewrite occurrences_absent; [lia|].
    intro H. now apply word_list_In in H.
  - assert (N : str_eqb k k0 = false).
    { apply str_eqb_neq. intros ->. apply Hk0.
      unfold keys. apply in_map_iff. now exists (k0, v). }
    rewrite N. simpl. now apply IH.
Qed.

Lemma tabulate_keys : forall {V} (f : str -> V) (d : dict V),
  (forall k v, In (k, v) d -> f k = v) -> tabulate f (keys d) = d.
Proof.
  intros V f. induction d as [|[k v] d IH]; intro H; [reflexivity|].
  simpl. rewrite (H k v) by now left. f_equal.
  apply IH. intros k' v' H'. apply H. now right.
Qed.

Lemma count_table_word_list : forall d,
  NoDup (keys d) -> (forall k v, In (k, v) d -> 1 <= v) ->
  count_table (word_list d) = d.
Proof.
  intros d ND Hpos. unfold count_table.
  rewrite unique_word_list by auto.
  apply tabulate_keys. intros k v H. now apply occurrences_word_list.
Qed.

Lemma keys_tabulate : forall {V} (f : str -> V) ks, keys (tabulate f ks) = ks.
Proof.
  intros V f ks. unfold keys, tabulate. rewrite map_map. simpl.
  apply map_id.
Qed.

(** C6, as the program has it.  Running [_extract_words] again on its
    own result, written out as one message in which every word stands as
    often as it was counted,
    the words joined by single spaces, gives the same table: splitting
    the message returns the word list, every word of it is left alone by
    the normalization and passes the test, and the counts add up to what
    they were. *)
Theorem extract_words_idempotent :
  forall up illegal_chars message_list,
    upper_leaves_lines up ->
    let word_freq := _extract_words up illegal_chars message_list in
    split (serialize word_freq) = word_list word_freq
    /\ _extract_words up illegal_chars [serialize word_freq] = word_freq.
Proof.
  intros up illegal_chars message_list Hup word_freq.
  set (words := surviving up illegal_chars message_list).
  assert (T : word_freq = count_table words) by apply extract_words_table.
  assert (Hkeys : keys word_freq = unique_from [] words).
  { rewrite T. apply keys_tabulate. }
  assert (Hword : forall w, In w (word_list word_freq) -> In w words).
  { intros w H. apply word_list_In in H. rewrite Hkeys in H.
    now apply unique_from_In in H. }
  assert (Hsplit : split (serialize word_freq) = word_list word_freq).
  { unfold serialize. apply split_join. apply Forall_forall. intros w H.
    pose proof (surviving_words _ _ _ _ Hup (Hword w H)) as A.
    split; [apply A | now apply alphanumeric_word_spaceless]. }
  split; [exact Hsplit|].
  rewrite extract_words_table. unfold surviving at 1.
  simpl flat_map. rewrite app_nil_r, Hsplit.
  assert (Hfix : map (normalize up illegal_chars) (word_list word_freq)
                 = word_list word_freq).
  { rewrite <- (map_id (word_list word_freq)) at 2.
    apply map_ext_in. intros w H.
    apply (surviving_fixed up illegal_chars message_list); auto. }
  rewrite Hfix.
  assert (Hall : filter re_alphanumeric (word_list word_freq)
                 = word_list word_freq).
  { apply forallb_filter_id. apply forallb_forall. intros w H.
    apply alphanumeric_word_matches.
    apply (surviving_words up illegal_chars message_list); auto. }
  rewrite Hall. apply count_table_word_list.
  - rewrite Hkeys. apply unique_from_NoDup.
  - intros k v H. rewrite T in H. unfold count_table in H.
    apply tabulate_In in H as [Hk ->].
    apply occurrences_present. now apply unique_from_In in Hk.
Qed.

Lemma extract_words_idempotent_witness :
  upper_leaves_lines (fun c => [c])
  /\ _extract_words (fun c => [c]) default_illegal_chars
       [serialize (_extract_words (fun c => [c]) default_illegal_chars
                     [py "the cat, the Cat; THE dog!"; py "x-ray 42"])] =
     _extract_words (fun c => [c]) default_illegal_chars
       [py "the cat, the Cat; THE dog!"; py "x-ray 42"].
Proof.
  assert (H : upper_leaves_lines (fun c => [c])).
  { intros c Hc [E|[]]. lia. }
  split; [exact H|].
  exact (proj2 (extract_words_idempotent (fun c => [c]) default_illegal_chars
                  [py "the cat, the Cat; THE dog!"; py "x-ray 42"] H)).
Defined.

(** With every word of the table written once, whatever its count, the
    second run does not give the table back: the message ["a a"] gives the
    count 2 for A, the words of that table joined by spaces are ["A"], and
    the table of that message has the count 1. *)
Lemma words_written_once_lose_counts :
  _extract_words (fun c => [c]) default_illegal_chars [py "a a"]
  = [(py "A", 2)]
  /\ serialize_keys [(py "A", 2)] = py "A"
  /\ _extract_words (fun c => [c]) default_illegal_chars
       [serialize_keys
          (_extract_words (fun c => [c]) default_illegal_chars [py "a a"])]
     = [(py "A", 1)].
Proof. repeat split; vm_compute; reflexivity. Qed.

(** ** The structural check *)

(** C5. A table with more than three columns, or with no rows, is
    refused by [_check_file], which looks at the shape only and runs in
    the constructor, before [generate_cloud] and so before any column is
    examined: the run ends with the exception of the check, whatever the
    cells hold, and nothing is attributed or handed to the renderer. *)
Theorem check_file_rejects_bad_shape :
  forall up illegal_chars df,
    3 < List.length (columns df) \/ len df = 0 ->
    exists msg,
      _check_file (Csv df) = Raise (Exception msg)
      /\ run up illegal_chars (Csv df) = Raise (Exception msg)
      /\ msg =
         (if 3 <? List.length (columns df)
          then "CSV appears to have more than 3 columns. WordCloudGenerator cannot parse this file"%string
          else "CSV appears to have no rows. WordCloudGenerator cannot parse this file"%string).
Proof.
  intros up illegal_chars df H.
  assert (L : List.length (columns df) = List.length (data df))
    by apply length_map.
  unfold run, _check_file, shape. rewrite <- L.
  destruct (3 <? List.length (columns df)) eqn:E.
  - eexists. repeat split; reflexivity.
  - apply Nat.ltb_ge in E. destruct H as [H|H]; [lia|].
    rewrite H. simpl. eexists. repeat split; reflexivity.
Qed.

Lemma check_file_rejects_bad_shape_witness :
  exists msg,
    _check_file
      (Csv (plain_frame [(py "a", [NaN]); (py "b", [NaN]);
                         (py "c", [NaN]); (py "d", [NaN])]))
    = Raise (Exception msg).
Proof.
  destruct (check_file_rejects_bad_shape (fun c => [c]) default_illegal_chars
              (plain_frame [(py "a", [NaN]); (py "b", [NaN]);
                            (py "c", [NaN]); (py "d", [NaN])]))
    as [msg [H _]].
  - left. simpl. lia.
  - exists msg. exact H.
Defined.

(** ** Frames *)

Lemma column_In : forall df col cells,
  column df col = Some cells -> In (col, cells) (data df).
Proof.
  intros [idx cols] col cells. unfold column. simpl.
  induction cols as [|[l c] cols IH]; simpl; intro H; [discriminate|].
  destruct (str_eqb l col) eqn:E.
  - apply str_eqb_eq in E. subst. injection H as ->. now left.
  - right. now apply IH.
Qed.

Lemma column_found : forall df col cells,
  distinct (columns df) = true -> In (col, cells) (data df) ->
  column df col = Some cells.
Proof.
  intros [idx cols] col cells. unfold column, columns. simpl.
  induction cols as [|[l c] cols IH]; simpl; intros D H; [contradiction|].
  apply andb_true_iff in D as [Dl D]. destruct H as [E|H].
  - injection E as -> ->. now rewrite str_eqb_refl.
  - destruct (str_eqb l col) eqn:E; [|now apply IH].
    apply str_eqb_eq in E. subst l. exfalso.
    apply negb_true_iff, mem_false in Dl. apply Dl.
    apply in_map_iff. now exists (col, cells).
Qed.

Lemma column_label : forall df col,
  In col (columns df) -> exists cells, column df col = Some cells.
Proof.
  intros [idx cols] col. unfold column, columns. simpl.
  induction cols as [|[l c] cols IH]; simpl; intro H; [contradiction|].
  destruct (str_eqb l col) eqn:E; [now exists c|].
  destruct H as [->|H]; [|now apply IH].
  rewrite str_eqb_refl in E. discriminate.
Qed.

Lemma column_loc : forall df mask col,
  column (loc df mask) col =
  match column df col with
  | Some cells => Some (select mask cells)
  | None => None
  end.
Proof.
  intros [idx cols] mask col. unfold loc, column. simpl.
  induction cols as [|[l c] cols IH]; simpl; [reflexivity|].
  now destruct (str_eqb l col).
Qed.

Section WellFormed.
Variable df : DataFrame.
Hypothesis WF : well_formed df = true.

Lemma well_formed_distinct : distinct (columns df) = true.
Proof.
  unfold well_formed in WF.
  apply andb_true_iff in WF as [H _]. now apply andb_true_iff in H as [H _].
Qed.

Lemma well_formed_length : forall col cells,
  In (col, cells) (data df) -> List.length cells = len df.
Proof.
  intros col cells H. unfold well_formed in WF.
  apply andb_true_iff in WF as [_ L]. rewrite forallb_forall in L.
  specialize (L _ H). now apply Nat.eqb_eq in L.
Qed.

Lemma well_formed_label : forall col cells,
  In (col, cells) (data df) -> col <> [].
Proof.
  intros col cells H. unfold well_formed in WF.
  apply andb_true_iff in WF as [W _]. apply andb_true_iff in W as [_ W].
  rewrite forallb_forall in W.
  assert (Hc : In col (columns df)).
  { unfold columns. apply in_map_iff. now exists (col, cells). }
  specialize (W _ Hc). intros ->. discriminate W.
Qed.

Lemma well_formed_labels : forall c, In c (columns df) -> c <> [].
Proof.
  intros c Hc. unfold columns in Hc.
  apply in_map_iff in Hc as [[l cells] [<- H]].
  now apply (well_formed_label l cells).
Qed.

End WellFormed.

Lemma distinct_NoDup : forall l, distinct l = true -> NoDup l.
Proof.
  induction l as [|x l IH]; simpl; intro H; [constructor|].
  apply andb_true_iff in H as [Hx Hl]. constructor; [|now apply IH].
  now apply mem_false, negb_true_iff.
Qed.

(** ** The distinct values of a column *)

Lemma same_value_eq : forall a b, same_value a b = true <-> a = b.
Proof.
  intros [s| |x] [t| |y]; simpl; split; intro H;
    try discriminate; try reflexivity.
  - apply str_eqb_eq in H. now subst.
  - injection H as ->. apply str_eqb_refl.
  - apply Z.eqb_eq in H. now subst.
  - injection H as ->. apply Z.eqb_refl.
Qed.

Lemma seen_value_In : forall c l, seen_value c l = true <-> In c l.
Proof.
  intros c l. unfold seen_value. rewrite existsb_exists. split.
  - intros [x [Hx E]]. apply same_value_eq in E. now subst.
  - intro H. exists c. split; [assumption | now apply same_value_eq].
Qed.

Lemma unique_values_In : forall l seen c,
  In c (unique_values seen l) <-> In c l /\ ~ In c seen.
Proof.
  induction l as [|x l IH]; simpl; intros seen c.
  - tauto.
  - destruct (seen_value x seen) eqn:Hs.
    + apply seen_value_In in Hs. rewrite IH. split.
      * tauto.
      * intros [[->|H] N]; tauto.
    + assert (Hx : ~ In x seen).
      { intro H. apply seen_value_In in H. congruence. }
      simpl. rewrite IH. simpl. split.
      * intros [->|[H N]]; tauto.
      * intros [[->|H] N]; [tauto|].
        destruct (same_value x c) eqn:E.
        -- apply same_value_eq in E. tauto.
        -- right. split; [assumption|]. intros [->|H']; [|tauto].
           assert (T : same_value c c = true) by now apply same_value_eq.
           congruence.
Qed.

Lemma unique_values_NoDup : forall l seen, NoDup (unique_values seen l).
Proof.
  induction l as [|x l IH]; simpl; intro seen.
  - constructor.
  - destruct (seen_value x seen); [apply IH|].
    constructor; [|apply IH].
    rewrite unique_values_In. simpl. tauto.
Qed.

Lemma unique_In : forall cells c, In c (unique cells) <-> In c cells.
Proof.
  intros cells c. unfold unique. rewrite unique_values_In. simpl. tauto.
Qed.

Lemma unique_nonempty : forall cells, cells <> [] -> unique cells <> [].
Proof.
  intros [|c cells] Hne; [contradiction|]. unfold unique. simpl. discriminate.
Qed.

(** ** The row loop *)

Lemma scan_rows_raise : forall re accept last rows hit e,
  scan_rows re accept last rows hit = Raise e -> e = TypeError.
Proof.
  induction rows as [|[l c] rows IH]; simpl; intros hit e H; [discriminate|].
  destruct c as [s| |x]; try (now injection H as <-).
  destruct (re s); [now apply IH in H | discriminate].
Qed.

(** The rows of a column of [str] cells never make [match] raise. *)
Lemma scan_rows_str : forall re accept last rows hit,
  forallb is_str (map snd rows) = true ->
  exists b, scan_rows re accept last rows hit = Ok b.
Proof.
  induction rows as [|[l c] rows IH]; simpl; intros hit H.
  - now exists hit.
  - destruct c as [s| |x]; try discriminate. simpl in H.
    destruct (re s); [now apply IH | now exists hit].
Qed.

(** What a hit tells, whatever the labels are: some row has the label
    [last], and the cells down to that row match the pattern. *)
Lemma scan_rows_found : forall re accept last rows hit,
  scan_rows re accept last rows hit = Ok true ->
  hit = true
  \/ (accept = true
      /\ exists before l s after,
           rows = before ++ (l, Str s) :: after
           /\ label_is l last = true
           /\ all_cells re (map snd before ++ [Str s]) = true).
Proof.
  induction rows as [|[l c] rows IH]; simpl; intros hit H.
  - injection H as ->. now left.
  - destruct c as [s| |x]; try discriminate.
    destruct (re s) eqn:Hs; [|injection H as ->; now left].
    apply IH in H as [H|[Hacc [before [l' [s' [after [E [Hl Hall]]]]]]]].
    + apply orb_true_iff in H as [H|H]; [now left|].
      apply andb_true_iff in H as [Hl Hacc]. right. split; [assumption|].
      exists [], l, s, rows. simpl. now rewrite Hs.
    + right. split; [assumption|].
      exists ((l, Str s) :: before), l', s', after. subst rows.
      simpl. now rewrite Hs.
Qed.

(** With no row labelled [last] the loop never assigns. *)
Lemma scan_rows_never : forall re accept last rows,
  (forall l, In l (map fst rows) -> label_is l last = false) ->
  forallb is_str (map snd rows) = true ->
  scan_rows re accept last rows false = Ok false.
Proof.
  induction rows as [|[l c] rows IH]; simpl; intros Hl Hstr; [reflexivity|].
  destruct c as [s| |x]; try discriminate. simpl in Hstr.
  destruct (re s); [|reflexivity].
  rewrite (Hl l (or_introl eq_refl)). simpl. apply IH; auto.
Qed.

Lemma scan_rows_not_str : forall re accept last before l c after hit,
  all_cells re (map snd before) = true -> is_str c = false ->
  scan_rows re accept last (before ++ (l, c) :: after) hit
  = Raise TypeError.
Proof.
  induction before as [|[l0 c0] before IH]; intros l c after hit H Hc.
  - simpl. destruct c as [s| |x]; [discriminate | reflexivity | reflexivity].
  - destruct c0 as [s| |x]; try discriminate. simpl in H.
    apply andb_true_iff in H as [Hs H]. simpl. rewrite Hs. now apply IH.
Qed.

Lemma numbered_cons : forall k c cells,
  numbered k (c :: cells) = (IntLabel (Z.of_nat k), c) :: numbered (S k) cells.
Proof. reflexivity. Qed.

Lemma scan_rows_hit : forall re accept last cells k hit,
  last = (Z.of_nat (k + List.length cells) - 1)%Z ->
  scan_rows re accept last (numbered k cells) hit = Ok true ->
  hit = true \/ (all_cells re cells = true /\ accept = true).
Proof.
  induction cells as [|c rest IH]; intros k hit Hlast H.
  - simpl in H. injection H as ->. now left.
  - rewrite numbered_cons in H. simpl in H.
    destruct c as [s| |x]; try discriminate.
    destruct (re s) eqn:Hs.
    + apply IH in H; [|simpl List.length in Hlast; lia].
      destruct H as [H|[Hall Hacc]].
      * apply orb_true_iff in H as [H|H]; [now left|].
        apply andb_true_iff in H as [Hi Hacc]. apply Z.eqb_eq in Hi.
        assert (rest = []) as ->.
        { destruct rest; [reflexivity|]. simpl List.length in Hlast. lia. }
        right. simpl. now rewrite Hs.
      * right. simpl. now rewrite Hs.
    + injection H as ->. now left.
Qed.

Lemma scan_rows_all_str : forall re accept last cells k hit,
  forallb is_str cells = true -> cells <> [] ->
  last = (Z.of_nat (k + List.length cells) - 1)%Z ->
  scan_rows re accept last (numbered k cells) hit =
  Ok (hit || (all_cells re cells && accept)).
Proof.
  induction cells as [|c rest IH]; intros k hit Hstr Hne Hlast;
    [contradiction|].
  destruct c as [s| |x]; try discriminate. simpl in Hstr.
  rewrite numbered_cons. simpl. destruct (re s) eqn:Hs; simpl.
  - destruct rest as [|c2 rest'].
    + simpl. replace (Z.of_nat k =? last)%Z with true
        by (symmetry; apply Z.eqb_eq; simpl List.length in Hlast; lia).
      reflexivity.
    + rewrite IH; [| assumption | discriminate
                   | simpl List.length in *; lia].
      replace (Z.of_nat k =? last)%Z with false
        by (symmetry; apply Z.eqb_neq; simpl List.length in Hlast; lia).
      simpl. now rewrite orb_false_r.
  - now rewrite orb_false_r.
Qed.

Lemma combine_fst : forall {A B} (a : list A) (b : list B),
  List.length a = List.length b -> map fst (combine a b) = a.
Proof.
  induction a as [|x a IH]; intros [|y b] L; try discriminate; simpl;
    [reflexivity|].
  f_equal. apply IH. now injection L.
Qed.

Lemma combine_snd : forall {A B} (a : list A) (b : list B),
  List.length a = List.length b -> map snd (combine a b) = b.
Proof.
  induction a as [|x a IH]; intros [|y b] L; try discriminate; simpl;
    [reflexivity|].
  f_equal. apply IH. now injection L.
Qed.

Lemma firstn_snoc : forall {A} (a : list A) x b,
  firstn (S (List.length a)) (a ++ x :: b) = a ++ [x].
Proof.
  induction a as [|y a IH]; intros x b; simpl; [reflexivity|].
  f_equal. apply IH.
Qed.

(** ** The test of a column *)

Section Tests.
Variable df : DataFrame.
Hypothesis WF : well_formed df = true.

Lemma iterrows_default : forall col cells,
  default_index df -> In (col, cells) (data df) ->
  iterrows df cells = numbered 0 cells.
Proof.
  intros col cells D H. unfold iterrows, numbered. rewrite D.
  unfold range_index. now rewrite (well_formed_length df WF col cells H).
Qed.

Lemma iterrows_labels : forall col cells,
  In (col, cells) (data df) -> map fst (iterrows df cells) = index df.
Proof.
  intros col cells H. unfold iterrows. apply combine_fst.
  now rewrite (well_formed_length df WF col cells H).
Qed.

Lemma iterrows_cells : forall col cells,
  In (col, cells) (data df) -> map snd (iterrows df cells) = cells.
Proof.
  intros col cells H. unfold iterrows. apply combine_snd.
  now rewrite (well_formed_length df WF col cells H).
Qed.

Lemma few_names_of : forall col cells,
  In (col, cells) (data df) ->
  few_names df col = (List.length (unique cells) <=? 255).
Proof.
  intros col cells H. unfold few_names.
  now rewrite (column_found df col cells (well_formed_distinct df WF) H).
Qed.

(** Whatever the labels are, a test that passes has found a row with the
    label [len - 1], and the cells down to that row match. *)
Lemma test_column_found : forall col re accept,
  test_column df col re accept = Ok true ->
  exists cells n l,
    column df col = Some cells /\ accept = true
    /\ nth_error (index df) n = Some l
    /\ label_is l (Z.of_nat (len df) - 1) = true
    /\ all_cells re (firstn (S n) cells) = true.
Proof.
  intros col re accept. unfold test_column, getitem.
  destruct (column df col) as [cells|] eqn:E; simpl; [|discriminate].
  intro H. apply scan_rows_found in H as [H|[Hacc H]]; [discriminate|].
  destruct H as [before [l [s [after [Hrows [Hl Hall]]]]]].
  pose proof (column_In _ _ _ E) as Hin.
  pose proof (iterrows_labels col cells Hin) as Li.
  pose proof (iterrows_cells col cells Hin) as Lc.
  rewrite Hrows, map_app in Li, Lc. simpl in Li, Lc.
  exists cells, (List.length before), l. repeat split; try assumption.
  - rewrite <- Li, nth_error_app2 by (rewrite length_map; lia).
    rewrite length_map, Nat.sub_diag. reflexivity.
  - rewrite <- Lc.
    pose proof (firstn_snoc (map snd before) (Str s) (map snd after)) as F.
    rewrite length_map in F.
    change (all_cells re
              (firstn (S (List.length before))
                 (map snd before ++ Str s :: map snd after)) = true).
    now rewrite F.
Qed.

(** With the default index the row labelled [len - 1] is the last one. *)
Lemma test_column_hit : forall col re accept,
  default_index df ->
  test_column df col re accept = Ok true ->
  exists cells,
    column df col = Some cells /\ all_cells re cells = true /\ accept = true.
Proof.
  intros col re accept D. unfold test_column, getitem.
  destruct (column df col) as [cells|] eqn:E; simpl; [|discriminate].
  pose proof (column_In _ _ _ E) as Hin.
  rewrite (iterrows_default col cells D Hin).
  intro H. apply scan_rows_hit in H.
  - destruct H as [H|H]; [discriminate|]. now exists cells.
  - rewrite (well_formed_length df WF col cells Hin). lia.
Qed.

Lemma test_column_all_str : forall col cells re accept,
  default_index df -> all_str df = true -> 1 <= len df ->
  In (col, cells) (data df) ->
  test_column df col re accept = Ok (all_cells re cells && accept).
Proof.
  intros col cells re accept D Hstr Hlen H. unfold test_column, getitem.
  rewrite (column_found df col cells (well_formed_distinct df WF) H). simpl.
  pose proof (well_formed_length df WF col cells H) as L.
  rewrite (iterrows_default col cells D H).
  rewrite scan_rows_all_str.
  - reflexivity.
  - unfold all_str in Hstr. rewrite forallb_forall in Hstr.
    apply (Hstr _ H).
  - intros ->. simpl in L. lia.
  - lia.
Qed.

(** On a frame of [str] cells a test never raises. *)
Lemma test_column_str : forall col re accept,
  all_str df = true -> In col (columns df) ->
  exists b, test_column df col re accept = Ok b.
Proof.
  intros col re accept Hstr Hcol. unfold test_column, getitem.
  destruct (column_label df col Hcol) as [cells E]. rewrite E. simpl.
  pose proof (column_In _ _ _ E) as Hin.
  apply scan_rows_str. rewrite (iterrows_cells col cells Hin).
  unfold all_str in Hstr. rewrite forallb_forall in Hstr.
  apply (Hstr _ Hin).
Qed.

(** When no row has the label [len - 1] a test never passes. *)
Lemma test_column_never : forall col re accept,
  never_last df -> all_str df = true -> In col (columns df) ->
  test_column df col re accept = Ok false.
Proof.
  intros col re accept Hnever Hstr Hcol. unfold test_column, getitem.
  destruct (column_label df col Hcol) as [cells E]. rewrite E. simpl.
  pose proof (column_In _ _ _ E) as Hin.
  apply scan_rows_never.
  - rewrite (iterrows_labels col cells Hin). exact Hnever.
  - rewrite (iterrows_cells col cells Hin).
    unfold all_str in Hstr. rewrite forallb_forall in Hstr.
    apply (Hstr _ Hin).
Qed.

End Tests.

Lemma test_column_raise : forall df col re accept e,
  In col (columns df) ->
  test_column df col re accept = Raise e -> e = TypeError.
Proof.
  intros df col re accept e Hcol H. unfold test_column, getitem in H.
  destruct (column_label df col Hcol) as [cells E]. rewrite E in H.
  cbn [bind] in H. now apply scan_rows_raise in H.
Qed.

(** ** What the column loop can do to the roles *)

Lemma no_roles_settled : settled no_roles.
Proof. unfold settled. simpl. auto. Qed.

Lemma check_column_cases : forall df r col r',
  col <> [] -> settled r ->
  check_column df r col = Ok r' ->
  r' = r
  \/ (time_col r = None
      /\ test_column df col re_timestamp true = Ok true
      /\ r' = {| name_col := name_col r; time_col := Some col;
                 message_col := message_col r |})
  \/ (name_col r = None
      /\ test_column df col re_name (few_names df col) = Ok true
      /\ r' = {| name_col := Some col; time_col := time_col r;
                 message_col := message_col r |})
  \/ (message_col r = None
      /\ r' = {| name_col := name_col r; time_col := time_col r;
                 message_col := Some col |}).
Proof.
  intros df r col r' Hcol Hr H. unfold check_column in H.
  destruct col as [|c0 col']; [contradiction|].
  destruct r as [n t m]. unfold settled in Hr. simpl in Hr.
  destruct Hr as [Hn [Ht Hm]].
  destruct n as [[|? ?]|]; try contradiction;
    destruct t as [[|? ?]|]; try contradiction;
    destruct m as [[|? ?]|]; try contradiction;
    destruct (test_column df (c0 :: col') re_name
                (few_names df (c0 :: col'))) as [[|]|] eqn:En;
    destruct (test_column df (c0 :: col') re_timestamp true)
      as [[|]|] eqn:Et;
    simpl in H; try discriminate H; injection H as <-; simpl;
    auto 10.
Qed.

Lemma check_column_settled : forall df r col r',
  col <> [] -> settled r -> check_column df r col = Ok r' -> settled r'.
Proof.
  intros df r col r' Hcol Hr H.
  destruct (check_column_cases _ _ _ _ Hcol Hr H)
    as [->|[[_ [_ ->]]|[[_ [_ ->]]|[_ ->]]]]; try assumption;
    destruct Hr as [Hn [Ht Hm]]; unfold settled; simpl;
    destruct col; try contradiction; auto.
Qed.

Lemma check_column_raise : forall df r col e,
  In col (columns df) ->
  check_column df r col = Raise e -> e = TypeError.
Proof.
  intros df r col e Hcol H. unfold check_column in H.
  destruct (test_column df col re_name (few_names df col))
    as [[|]|e1] eqn:En;
    destruct (test_column df col re_timestamp true) as [[|]|e2] eqn:Et;
    destruct (truthy (time_col r)) eqn:T1;
    destruct (truthy (name_col r)) eqn:T2;
    destruct (truthy (message_col r)) eqn:T3;
    destruct col as [|c0 col'];
    simpl in H; rewrite ?T1, ?T2, ?T3 in H; simpl in H;
    try discriminate H; injection H as <-;
    first [ now apply (test_column_raise _ _ _ _ _ Hcol En)
          | now apply (test_column_raise _ _ _ _ _ Hcol Et) ].
Qed.

Lemma check_column_fields : forall df r col r',
  check_column df r col = Ok r' ->
  (name_col r' = name_col r \/ name_col r' = Some col)
  /\ (message_col r' = message_col r \/ message_col r' = Some col).
Proof.
  intros df r col r' H. unfold check_column in H.
  destruct (test_column df col re_name (few_names df col))
    as [[|]|e1] eqn:En;
    destruct (test_column df col re_timestamp true) as [[|]|e2] eqn:Et;
    destruct (truthy (time_col r)) eqn:T1;
    destruct (truthy (name_col r)) eqn:T2;
    destruct (truthy (message_col r)) eqn:T3;
    destruct col as [|c0 col'];
    simpl in H; rewrite ?T1, ?T2, ?T3 in H; simpl in H;
    try discriminate H; injection H as <-; simpl; auto.
Qed.

(** On a frame of [str] cells the body of the column loop never raises. *)
Lemma check_column_str : forall df r col,
  well_formed df = true -> all_str df = true -> In col (columns df) ->
  exists r', check_column df r col = Ok r'.
Proof.
  intros df r col WF Hstr Hcol. unfold check_column.
  destruct (test_column_str df WF col re_timestamp true Hstr Hcol)
    as [bt ->].
  destruct (test_column_str df WF col re_name (few_names df col) Hstr Hcol)
    as [bn ->].
  cbn [bind].
  repeat match goal with
         | |- context [if ?b then _ else _] => destruct b
         end; eexists; reflexivity.
Qed.

Lemma infer_roles_from_columns : forall df cols r,
  incl cols (columns df) ->
  match for_each (check_column df) cols r with
  | Raise e => e = TypeError
  | Ok r' =>
      (name_col r' = name_col r
       \/ exists c, name_col r' = Some c /\ In c (columns df))
      /\ (message_col r' = message_col r
          \/ exists c, message_col r' = Some c /\ In c (columns df))
  end.
Proof.
  intros df. induction cols as [|col cols IH]; intros r Hincl.
  - simpl. auto.
  - assert (Hcol : In col (columns df)) by (apply Hincl; now left).
    cbn [for_each].
    destruct (check_column df r col) as [r1|e] eqn:E; cbn [bind].
    + specialize (IH r1 (fun x Hx => Hincl x (or_intror Hx))).
      destruct (for_each (check_column df) cols r1) as [r'|e];
        [|exact IH].
      destruct (check_column_fields _ _ _ _ E) as [N M].
      destruct IH as [IN IM]. split.
      * destruct IN as [IN|IN]; [|now right].
        rewrite IN. destruct N as [N|N]; [now left|].
        right. now exists col.
      * destruct IM as [IM|IM]; [|now right].
        rewrite IM. destruct M as [M|M]; [now left|].
        right. now exists col.
    + now apply (check_column_raise df r col).
Qed.

(** A role that the loop ends with was there before, or the test of its
    column has passed. *)
Lemma infer_roles_tests : forall df cols r r',
  (forall c, In c cols -> c <> []) -> settled r ->
  for_each (check_column df) cols r = Ok r' ->
  (forall col, time_col r' = Some col ->
     time_col r = Some col
     \/ test_column df col re_timestamp true = Ok true)
  /\ (forall col, name_col r' = Some col ->
        name_col r = Some col
        \/ test_column df col re_name (few_names df col) = Ok true).
Proof.
  intros df. induction cols as [|c cols IH]; intros r r' Hne Hr H;
    simpl in H.
  - injection H as <-. split; intros col Hc; now left.
  - destruct (check_column df r c) as [r1|] eqn:E; [|discriminate].
    simpl in H.
    assert (Hc : c <> []) by (apply Hne; now left).
    pose proof (check_column_settled _ _ _ _ Hc Hr E) as Hr1.
    destruct (IH r1 r' (fun x Hx => Hne x (or_intror Hx)) Hr1 H)
      as [IT IN].
    destruct (check_column_cases _ _ _ _ Hc Hr E)
      as [->|[[_ [T ->]]|[[_ [N ->]]|[_ ->]]]]; split; intros col Hcol;
      try (specialize (IT col Hcol)); try (specialize (IN col Hcol));
      simpl in *; try assumption.
    + destruct IT as [IT|IT]; [|now right].
      injection IT as <-. now right.
    + destruct IN as [IN|IN]; [|now right].
      injection IN as <-. now right.
Qed.

(** On a frame of [str] cells that has the default index and at least one
    row, the body of the column loop is the role rule. *)
Section Inference.
Variable df : DataFrame.
Hypothesis WF : well_formed df = true.
Hypothesis D : default_index df.

Lemma check_column_rules : forall col cells r,
  all_str df = true -> 1 <= len df -> In (col, cells) (data df) ->
  settled r ->
  check_column df r col = Ok (assign_role r (col, cells))
  /\ settled (assign_role r (col, cells)).
Proof.
  intros col cells r Hstr Hlen H Hr.
  pose proof (well_formed_label df WF col cells H) as Hcol.
  pose proof (test_column_all_str df WF col cells re_timestamp true
                D Hstr Hlen H) as Ht.
  pose proof (test_column_all_str df WF col cells re_name (few_names df col)
                D Hstr Hlen H) as Hn.
  rewrite (few_names_of df WF col cells H) in Hn.
  rewrite andb_true_r in Ht.
  unfold check_column, assign_role.
  rewrite (few_names_of df WF col cells H), Ht, Hn.
  destruct col as [|c0 col']; [contradiction|].
  destruct r as [n t m]. unfold settled in *. simpl in Hr.
  destruct Hr as [Hn' [Ht' Hm']].
  destruct n as [[|? ?]|]; try contradiction;
    destruct t as [[|? ?]|]; try contradiction;
    destruct m as [[|? ?]|]; try contradiction;
    destruct (all_cells re_timestamp cells);
    destruct (all_cells re_name cells);
    destruct (List.length (unique cells) <=? 255);
    simpl; auto.
Qed.

Lemma infer_roles_from : forall suffix r,
  all_str df = true -> 1 <= len df ->
  (forall lc, In lc suffix -> In lc (data df)) -> settled r ->
  for_each (check_column df) (map fst suffix) r =
  Ok (fold_left assign_role suffix r).
Proof.
  induction suffix as [|[col cells] suffix IH]; intros r Hstr Hlen Hin Hr;
    [reflexivity|].
  simpl.
  destruct (check_column_rules col cells r Hstr Hlen) as [E S];
    [apply Hin; now left | assumption |].
  rewrite E. simpl. apply IH; auto.
  intros lc H. apply Hin. now right.
Qed.

Lemma infer_roles_rules :
  all_str df = true -> 1 <= len df ->
  infer_roles df = Ok (roles_by_rules df).
Proof.
  intros Hstr Hlen. unfold infer_roles, roles_by_rules, columns.
  apply infer_roles_from; auto.
  apply no_roles_settled.
Qed.

End Inference.

(** ** What a column must be to take the name role *)

Lemma range_index_nth : forall len n l,
  nth_error (range_index len) n = Some l ->
  n < len /\ l = IntLabel (Z.of_nat n).
Proof.
  intros len n l H. unfold range_index in H.
  assert (Hn : n < len).
  { assert (N : nth_error (map (fun i => IntLabel (Z.of_nat i)) (seq 0 len)) n
                <> None) by congruence.
    apply nth_error_Some in N.
    now rewrite length_map, length_seq in N. }
  split; [assumption|].
  rewrite nth_error_map, nth_error_seq in H.
  replace (n <? len) with true in H by (symmetry; now apply Nat.ltb_lt).
  simpl in H. now injection H as <-.
Qed.

(** With the default index, the cells down to the row labelled [len - 1]
    are all the cells. *)
Lemma default_index_last : forall df n l (cells : list cell),
  default_index df -> List.length cells = len df ->
  nth_error (index df) n = Some l ->
  label_is l (Z.of_nat (len df) - 1) = true ->
  firstn (S n) cells = cells.
Proof.
  intros df n l cells D L Hn Hl. rewrite D in Hn.
  apply range_index_nth in Hn as [Hlt ->]. simpl in Hl.
  apply Z.eqb_eq in Hl. apply firstn_all2. lia.
Qed.

Lemma name_role_column : forall df r col,
  well_formed df = true -> infer_roles df = Ok r -> name_col r = Some col ->
  exists cells n l,
    column df col = Some cells
    /\ List.length (unique cells) <= 255
    /\ nth_error (index df) n = Some l
    /\ label_is l (Z.of_nat (len df) - 1) = true
    /\ all_cells re_name (firstn (S n) cells) = true.
Proof.
  intros df r col WF H Hn. unfold infer_roles in H.
  destruct (infer_roles_tests df _ _ _ (well_formed_labels df WF)
              no_roles_settled H) as [_ IN].
  destruct (IN col Hn) as [A|T]; [discriminate|].
  destruct (test_column_found df WF _ _ _ T)
    as [cells [n [l [A [B [C [E F]]]]]]].
  exists cells, n, l. repeat split; try assumption.
  unfold few_names in B. rewrite A in B. now apply Nat.leb_le in B.
Qed.

Lemma name_column_str : forall df r col,
  well_formed df = true -> default_index df ->
  infer_roles df = Ok r -> name_col r = Some col ->
  exists cells,
    column df col = Some cells /\ all_cells re_name cells = true.
Proof.
  intros df r col WF D H Hn.
  destruct (name_role_column df r col WF H Hn)
    as [cells [n [l [A [_ [C [E F]]]]]]].
  exists cells. split; [assumption|].
  rewrite (default_index_last df n l cells D) in F; try assumption.
  apply (well_formed_length df WF col cells). now apply column_In.
Qed.




(** ** Text that is too long for a timestamp *)

Lemma match_class_length : forall cls lo hi s,
  match_class cls lo (Some hi) s = true -> List.length s <= hi + 1.
Proof.
  intros cls lo hi s H. unfold match_class in H.
  destruct (span cls s) as [body rest] eqn:E.
  apply andb_true_iff in H as [H Hend].
  apply andb_true_iff in H as [_ Hhi]. apply Nat.leb_le in Hhi.
  rewrite (span_app _ _ _ _ E), length_app.
  destruct rest as [|c [|c' rest]]; simpl in *; try discriminate; lia.
Qed.

Lemma long_text_not_timestamps : forall cells,
  cells <> [] -> (forall s, In (Str s) cells -> 30 < List.length s) ->
  forallb is_str cells = true ->
  all_cells re_timestamp cells = false.
Proof.
  intros cells Hne Hlong Hstr.
  destruct cells as [|[s| |x] cells]; try contradiction; try discriminate.
  simpl. destruct (re_timestamp s) eqn:E; [|reflexivity].
  apply match_class_length in E.
  specialize (Hlong s (or_introl eq_refl)). lia.
Qed.

(** C2, as the program has it.  On a well-formed frame of [str] cells
    with at least one row and the default index [0 .. len - 1], the roles
    that [_parse_csv] infers are those of the rules: the columns once each
    in table order, the timestamp test first, then the name test, then the
    message role for the first column left over, no role given twice.  For
    two columns A and B of such a frame, where every cell of A matches the
    name pattern with at most 255 distinct values and some cell of A fails
    the timestamp pattern, and the cells of B are texts of more than 30
    characters, A gets the name role and B the message role. *)
Theorem roles_follow_rules_in_table_order :
  (forall df,
     well_formed df = true -> default_index df ->
     all_str df = true -> 1 <= len df ->
     infer_roles df = Ok (roles_by_rules df))
  /\ (forall idx a b A B,
        let df := {| index := idx; data := [(a, A); (b, B)] |} in
        well_formed df = true -> default_index df ->
        all_str df = true -> 1 <= len df ->
        all_cells re_name A = true -> List.length (unique A) <= 255 ->
        all_cells re_timestamp A = false ->
        (forall s, In (Str s) B -> 30 < List.length s) ->
        infer_roles df =
        Ok {| name_col := Some a; time_col := None; message_col := Some b |}).
Proof.
  split; [exact infer_roles_rules|].
  intros idx a b A B df WF D Hstr Hlen HA Hfew HnotT HB.
  rewrite infer_roles_rules by assumption.
  assert (HBT : all_cells re_timestamp B = false).
  { apply long_text_not_timestamps; [|assumption|].
    - pose proof (well_formed_length _ WF b B (or_intror (or_introl eq_refl)))
        as L.
      intros ->. simpl in L. lia.
    - unfold all_str in Hstr. simpl in Hstr.
      apply andb_true_iff in Hstr as [_ Hstr].
      now apply andb_true_iff in Hstr as [Hstr _]. }
  apply Nat.leb_le in Hfew.
  unfold roles_by_rules, df. simpl.
  rewrite HnotT, HA, Hfew. simpl. rewrite HBT. reflexivity.
Qed.

Lemma roles_follow_rules_in_table_order_witness :
  infer_roles
    {| index := [IntLabel 0; IntLabel 1];
       data :=
         [(py "who", [Str (py "Alice"); Str (py "Bob")]);
          (py "text",
           [Str (py "Hello to the two of you, how have you been?");
            Str (py "Fine, thanks: and you? It has been a while.")])] |}
  = Ok {| name_col := Some (py "who"); time_col := None;
          message_col := Some (py "text") |}.
Proof.
  apply (proj2 roles_follow_rules_in_table_order).
  - vm_compute. reflexivity.
  - vm_compute. reflexivity.
  - vm_compute. reflexivity.
  - vm_compute. lia.
  - vm_compute. reflexivity.
  - vm_compute. lia.
  - vm_compute. reflexivity.
  - intros s [E|[E|[]]]; injection E as <-; vm_compute; lia.
Defined.

(** Two tables on which the roles are not those of the rules.  In the
    first the rows have one field more than the header: their first
    fields are the row labels, no label is [len - 1], no test passes and
    the name-shaped column [who] is left with the message role.  In the
    second the index is the default one and the name-shaped column A of
    codes passes the timestamp test, which comes first. *)
Lemma roles_not_those_of_the_rules :
  (well_formed rows_with_text_labels = true
   /\ all_str rows_with_text_labels = true
   /\ len rows_with_text_labels = 2
   /\ roles_by_rules rows_with_text_labels =
      {| name_col := Some (py "who"); time_col := None;
         message_col := Some (py "text") |}
   /\ infer_roles rows_with_text_labels =
      Ok {| name_col := None; time_col := None;
            message_col := Some (py "who") |})
  /\ (well_formed codes_and_text = true
      /\ default_index codes_and_text
      /\ all_str codes_and_text = true
      /\ (exists A B,
            data codes_and_text = [(py "A", A); (py "B", B)]
            /\ all_cells re_name A = true
            /\ List.length (unique A) <= 255
            /\ (forall s, In (Str s) B -> 30 < List.length s))
      /\ infer_roles codes_and_text =
         Ok {| name_col := None; time_col := Some (py "A");
               message_col := Some (py "B") |}).
Proof.
  split.
  - repeat split; vm_compute; reflexivity.
  - split; [vm_compute; reflexivity|]. split; [vm_compute; reflexivity|].
    split; [vm_compute; reflexivity|]. split; [|vm_compute; reflexivity].
    eexists. eexists. split; [reflexivity|].
    split; [vm_compute; reflexivity|]. split; [vm_compute; lia|].
    intros s [E|[E|[]]]; injection E as <-; vm_compute; lia.
Qed.

(** ** Roles that stay unresolved *)

Lemma check_file_rows : forall df,
  _check_file (Csv df) = Ok tt -> 1 <= len df.
Proof.
  intros df H. unfold _check_file, shape in H.
  destruct (3 <? List.length (data df)); [discriminate|].
  destruct (len df <? 1) eqn:E; [discriminate|].
  now apply Nat.ltb_ge in E.
Qed.

Lemma unresolved_raises : forall up illegal_chars df r,
  well_formed df = true -> 1 <= len df -> infer_roles df = Ok r ->
  name_col r = None \/ message_col r = None ->
  _parse_csv up illegal_chars df [] = Raise (KeyError None).
Proof.
  intros up illegal_chars df r WF Hlen Hr Hun.
  unfold _parse_csv. rewrite Hr. simpl.
  destruct (name_col r) as [col|] eqn:En; [|reflexivity].
  destruct Hun as [Hun|Hm]; [discriminate|].
  pose proof (infer_roles_from_columns df (columns df) no_roles
                (incl_refl _)) as I.
  fold (infer_roles df) in I. rewrite Hr in I. destruct I as [IN _].
  rewrite En in IN. destruct IN as [IN|[c [Ec Hc]]]; [discriminate|].
  injection Ec as <-.
  destruct (column_label df col Hc) as [cells Hcells].
  unfold getitem at 1. rewrite Hcells. simpl.
  assert (Hne : cells <> []).
  { pose proof (well_formed_length df WF col cells (column_In _ _ _ Hcells))
      as L.
    intros ->. simpl in L. lia. }
  destruct (unique cells) as [|name names] eqn:U.
  - now apply unique_nonempty in U.
  - simpl. unfold words_of_name at 1. rewrite En, Hm.
    unfold getitem at 1. rewrite Hcells. reflexivity.
Qed.

(** C7, as the program has it.  When the inference ends without a name
    column or without a message column, [_parse_csv] fails in the column
    lookup, with the [KeyError] for the label [None]: the same exception
    whichever role is missing, and the run ends there, before anything is
    handed to the renderer. *)
Theorem unresolved_role_raises_key_error :
  forall up illegal_chars df r,
    well_formed df = true -> _check_file (Csv df) = Ok tt ->
    infer_roles df = Ok r ->
    name_col r = None \/ message_col r = None ->
    run up illegal_chars (Csv df) = Raise (KeyError None).
Proof.
  intros up illegal_chars df r WF Hcheck Hr Hun.
  unfold run. rewrite Hcheck. simpl.
  apply (unresolved_raises up illegal_chars df r); auto.
  now apply check_file_rows.
Qed.

Lemma unresolved_role_raises_key_error_witness :
  run (fun c => [c]) default_illegal_chars (Csv codes_and_text)
  = Raise (KeyError None).
Proof.
  apply (unresolved_role_raises_key_error (fun c => [c]) default_illegal_chars
           codes_and_text
           {| name_col := None; time_col := Some (py "A");
              message_col := Some (py "B") |}).
  - vm_compute. reflexivity.
  - vm_compute. reflexivity.
  - vm_compute. reflexivity.
  - left. reflexivity.
Defined.

(** The exception does not tell which role is missing.  On a table of
    one column of text the name role is the one that is not resolved, on
    a table of one column of names it is the message role, and the two
    runs end with the same exception, which carries no label and no text:
    nothing that is read off the exception names the missing role of
    both. *)
Lemma key_error_names_no_role :
  let r1 := {| name_col := None; time_col := None;
               message_col := Some (py "text") |} in
  let r2 := {| name_col := Some (py "who"); time_col := None;
               message_col := None |} in
  infer_roles only_text = Ok r1
  /\ infer_roles only_names = Ok r2
  /\ (forall which, unresolved r1 which <-> which = NameRole)
  /\ (forall which, unresolved r2 which <-> which = MessageRole)
  /\ run (fun c => [c]) default_illegal_chars (Csv only_text)
     = Raise (KeyError None)
  /\ run (fun c => [c]) default_illegal_chars (Csv only_names)
     = Raise (KeyError None)
  /\ ~ exists names : exn -> needed_role,
         unresolved r1 (names (KeyError None))
         /\ unresolved r2 (names (KeyError None)).
Proof.
  intros r1 r2.
  split; [vm_compute; reflexivity|]. split; [vm_compute; reflexivity|].
  split; [intros [|]; simpl; split; intro H; congruence|].
  split; [intros [|]; simpl; split; intro H; congruence|].
  split; [vm_compute; reflexivity|]. split; [vm_compute; reflexivity|].
  intros [names [H1 H2]].
  destruct (names (KeyError None)); simpl in H1, H2; discriminate.
Qed.

(** ** One column *)

(** C8 fails on the program.  A table of one column, whatever it holds
    and whatever its row labels are, is not read as the messages of a
    single speaker: one column fills at most one role, so the name column
    or the message column is missing and [_parse_csv] ends with the
    [KeyError] of the lookup of [None]. *)
Theorem one_column_csv_raises :
  forall up illegal_chars idx col cells,
    let df := {| index := idx; data := [(col, cells)] |} in
    well_formed df = true -> all_str df = true ->
    cells <> [] ->
    run up illegal_chars (Csv df) = Raise (KeyError None).
Proof.
  intros up illegal_chars idx col cells df WF Hstr Hne.
  assert (Hlen : 1 <= len df).
  { rewrite <- (well_formed_length df WF col cells (or_introl eq_refl)).
    destruct cells; [contradiction | simpl; lia]. }
  assert (Hcol : col <> [])
    by apply (well_formed_label df WF col cells (or_introl eq_refl)).
  unfold run, _check_file, shape. simpl List.length.
  replace (len df <? 1) with false
    by (symmetry; apply Nat.ltb_ge; exact Hlen).
  cbn [Nat.ltb Nat.leb bind generate_cloud].
  destruct (check_column_str df no_roles col WF Hstr (or_introl eq_refl))
    as [r E].
  apply (unresolved_raises up illegal_chars df r); auto.
  - unfold infer_roles, df. cbn [columns data map fst for_each].
    fold df. now rewrite E.
  - destruct (check_column_cases _ _ _ _ Hcol no_roles_settled E)
      as [->|[[_ [_ ->]]|[[_ [_ ->]]|[_ ->]]]]; simpl; auto.
Qed.

Lemma one_column_csv_raises_witness :
  run (fun c => [c]) default_illegal_chars (Csv only_text)
  = Raise (KeyError None).
Proof.
  apply (one_column_csv_raises (fun c => [c]) default_illegal_chars
           [IntLabel 0] (py "text") [Str (py "hello, world!")]).
  - vm_compute. reflexivity.
  - vm_compute. reflexivity.
  - discriminate.
Defined.

(** * Further properties of the program *)

(** ** The sequential attributor as a whole *)

Lemma attribute_whatsapp_group : forall first rest p0 m0 cur,
  re_new_line first = Some (p0, m0) ->
  attribute_whatsapp (first :: rest) =
  Ok (group_by_speaker (attributed cur (first :: rest))).
Proof.
  intros first rest p0 m0 cur Hfirst.
  unfold attribute_whatsapp, whatsapp_loop. simpl.
  unfold whatsapp_line at 1. rewrite Hfirst. simpl.
  change (append_message [] p0 m0)
    with (append_message (group_by_speaker []) p0 m0).
  rewrite append_message_group.
  destruct (whatsapp_loop_from rest p0 ([] ++ [(p0, m0)])) as [cur' H].
  rewrite H. reflexivity.
Qed.

Lemma new_entry_valid_name : forall line p m,
  re_new_line line = Some (p, m) -> valid_name p.
Proof.
  intros line p m H. apply re_new_line_spec in H.
  destruct H as [pre [tail [_ [_ [Hp [Hlen _]]]]]]. now split.
Qed.

(** X1. A line written as date and time, name, colon, space and text
    is read back as that name and that text, whatever the text holds,
    further colons included, as long as it has no newline; a log of this
    one line gives the name that one message. *)
Theorem new_entry_round_trip : forall pre name text,
  match_items datetime_prefix pre = Some [] ->
  valid_name name ->
  forallb dot text = true -> 1 <= List.length text ->
  re_new_line (pre ++ name ++ py ": " ++ text) = Some (name, text)
  /\ attribute_whatsapp [pre ++ name ++ py ": " ++ text] = Ok [(name, [text])].
Proof.
  intros pre name text Hpre [Hname Hlen] Htext Hne.
  assert (H : re_new_line (pre ++ name ++ py ": " ++ text) = Some (name, text)).
  { apply re_new_line_spec. exists pre, []. rewrite app_nil_r.
    repeat split; try assumption; lia. }
  split; [exact H|].
  unfold attribute_whatsapp, whatsapp_loop. cbn [for_each].
  unfold whatsapp_line. rewrite H. reflexivity.
Qed.

Lemma new_entry_round_trip_witness :
  re_new_line (py "17/01/2018, 19:21 - " ++ py "Firstname Surname 2"
               ++ py ": " ++ py "Note: see 10:30 - Bob: hi")
  = Some (py "Firstname Surname 2", py "Note: see 10:30 - Bob: hi").
Proof.
  refine (proj1 (new_entry_round_trip (py "17/01/2018, 19:21 - ")
                   (py "Firstname Surname 2")
                   (py "Note: see 10:30 - Bob: hi") _ _ _ _)).
  - vm_compute. reflexivity.
  - split; [vm_compute; reflexivity | vm_compute; lia].
  - vm_compute. reflexivity.
  - vm_compute. lia.
Defined.

Lemma attributed_names : forall lines cur,
  valid_name cur ->
  Forall (fun e => valid_name (fst e)) (attributed cur lines).
Proof.
  induction lines as [|line lines IH]; simpl; intros cur Hcur;
    [constructor|].
  destruct (re_new_line line) as [[p m]|] eqn:E.
  - pose proof (new_entry_valid_name _ _ _ E) as Hp.
    constructor; [exact Hp | now apply IH].
  - constructor; [exact Hcur | now apply IH].
Qed.

Lemma messages_of_present : forall p entries,
  In p (map fst entries) -> messages_of p entries <> [].
Proof.
  intros p entries. unfold messages_of.
  induction entries as [|[q m] entries IH]; simpl; intro H; [contradiction|].
  destruct (str_eqb q p) eqn:E; simpl; [discriminate|].
  apply IH. destruct H as [->|H]; [|assumption].
  rewrite str_eqb_refl in E. discriminate.
Qed.

Lemma attribute_whatsapp_outcome : forall lines,
  match lines with
  | [] => attribute_whatsapp lines = Ok []
  | first :: rest =>
      match re_new_line first with
      | Some (p0, _) =>
          attribute_whatsapp lines =
          Ok (group_by_speaker (attributed p0 lines))
      | None =>
          attribute_whatsapp lines = Raise (UnboundLocalError "person")
      end
  end.
Proof.
  intros [|first rest]; [reflexivity|].
  destruct (re_new_line first) as [[p0 m0]|] eqn:E.
  - now apply (attribute_whatsapp_group first rest p0 m0).
  - unfold attribute_whatsapp. now rewrite unbound_person.
Qed.

(** X2. In every message group that the loop of [_parse_whatsapp]
    returns, each speaker is a name of 1 to 30 characters of
    [A-Za-z0-9 -] and has at least one message. *)
Theorem speakers_are_names : forall lines d p msgs,
  attribute_whatsapp lines = Ok d ->
  In (p, msgs) d ->
  valid_name p /\ msgs <> [].
Proof.
  intros lines d p msgs H Hin.
  pose proof (attribute_whatsapp_outcome lines) as O.
  destruct lines as [|first rest].
  - rewrite O in H. injection H as <-. contradiction.
  - destruct (re_new_line first) as [[p0 m0]|] eqn:E.
    + rewrite O in H. injection H as <-.
      unfold group_by_speaker in Hin. apply tabulate_In in Hin as [Hp ->].
      apply unique_from_In in Hp as [Hp _]. split.
      * pose proof (attributed_names (first :: rest) p0
                      (new_entry_valid_name _ _ _ E)) as F.
        rewrite Forall_forall in F.
        apply in_map_iff in Hp as [e [<- He]]. now apply F.
      * now apply messages_of_present.
    + rewrite O in H. discriminate.
Qed.

Lemma speakers_are_names_witness :
  valid_name (py "Bob")
  /\ [py "Hello!"; py "Second line from Bob"] <> [].
Proof.
  apply (speakers_are_names spec_lines
           [(py "Alice", [py "Hi there"]);
            (py "Bob", [py "Hello!"; py "Second line from Bob"])]).
  - vm_compute. reflexivity.
  - right. left. reflexivity.
Defined.

(** ** Every line is kept, once *)

Lemma total_messages_app : forall d d',
  total_messages (d ++ d') = total_messages d + total_messages d'.
Proof.
  intros. unfold total_messages. now rewrite map_app, list_sum_app.
Qed.

Lemma total_messages_extend : forall d p l m,
  dict_get d p = Some l ->
  total_messages (dict_set d p (l ++ [m])) = total_messages d + 1.
Proof.
  unfold total_messages.
  induction d as [|[k v] d IH]; simpl; intros p l m H; [discriminate|].
  destruct (str_eqb k p).
  - injection H as ->. simpl. rewrite length_app. simpl. lia.
  - simpl. rewrite (IH _ _ _ H). lia.
Qed.

Lemma total_messages_append : forall d p m,
  total_messages (append_message d p m) = total_messages d + 1.
Proof.
  intros d p m. unfold append_message.
  destruct (dict_get d p) as [l|] eqn:E.
  - now apply total_messages_extend.
  - rewrite dict_set_absent by assumption.
    rewrite total_messages_app. reflexivity.
Qed.

Lemma whatsapp_line_total : forall st line st',
  whatsapp_line st line = Ok st' ->
  total_messages (person_data st') = total_messages (person_data st) + 1.
Proof.
  intros st line st' H. unfold whatsapp_line in H.
  destruct (re_new_line line) as [[p m]|].
  - injection H as <-. simpl. apply total_messages_append.
  - destruct (person st) as [p|]; [|discriminate].
    injection H as <-. simpl. apply total_messages_append.
Qed.

Lemma whatsapp_loop_total : forall lines st st',
  for_each whatsapp_line lines st = Ok st' ->
  total_messages (person_data st') =
  total_messages (person_data st) + List.length lines.
Proof.
  induction lines as [|line lines IH]; simpl; intros st st' H.
  - injection H as <-. lia.
  - destruct (whatsapp_line st line) as [st1|] eqn:E; [|discriminate].
    simpl in H. rewrite (IH _ _ H), (whatsapp_line_total _ _ _ E). lia.
Qed.

(** X3. No line is lost and none is counted twice: the message group
    holds as many messages, over all the speakers, as the input has
    lines. *)
Theorem every_line_is_one_message : forall lines d,
  attribute_whatsapp lines = Ok d ->
  total_messages d = List.length lines.
Proof.
  intros lines d H. unfold attribute_whatsapp, whatsapp_loop in H.
  destruct (for_each whatsapp_line lines
              {| person := None; person_data := [] |}) as [st|] eqn:E;
    [|discriminate].
  simpl in H. injection H as <-.
  now rewrite (whatsapp_loop_total _ _ _ E).
Qed.

Lemma every_line_is_one_message_witness :
  total_messages
    [(py "Alice", [py "Hi there"]);
     (py "Bob", [py "Hello!"; py "Second line from Bob"])]
  = List.length spec_lines.
Proof.
  apply every_line_is_one_message. vm_compute. reflexivity.
Defined.

(** ** From the message group to the word tables *)

Lemma set_words_fresh : forall wd name words,
  ~ In name (map fst wd) -> set_words wd name words = wd ++ [(name, words)].
Proof.
  induction wd as [|[k v] wd IH]; simpl; intros name words H; [reflexivity|].
  destruct (same_value k name) eqn:E.
  - apply same_value_eq in E. tauto.
  - rewrite IH; [reflexivity | tauto].
Qed.

Lemma fold_set_fresh :
  forall {V} (h : V -> dict nat) (items : dict V) (acc : names_dict),
    NoDup (keys items) ->
    (forall k, In k (keys items) -> ~ In (Str k) (map fst acc)) ->
    fold_left (fun wd item => set_words wd (Str (fst item)) (h (snd item)))
      items acc =
    acc ++ named (map (fun item => (fst item, h (snd item))) items).
Proof.
  intros V h. induction items as [|[k v] items IH]; intros acc ND Hfresh.
  - simpl. now rewrite app_nil_r.
  - simpl in ND. inversion ND as [|? ? Hk ND']; subst.
    cbn [fold_left fst snd map named].
    rewrite set_words_fresh by (apply Hfresh; now left).
    rewrite IH; [unfold named; now rewrite <- app_assoc | assumption |].
    intros k' Hk'. rewrite map_app, in_app_iff. simpl.
    intros [H|[H|[]]].
    + apply (Hfresh k'); [now right | assumption].
    + injection H as ->. contradiction.
Qed.

Lemma parse_whatsapp_tables : forall up illegal_chars first rest p0 m0,
  re_new_line first = Some (p0, m0) ->
  _parse_whatsapp up illegal_chars (first :: rest) [] =
  Ok (named
        (tabulate
           (fun p => _extract_words up illegal_chars
                       (messages_of p (attributed p0 (first :: rest))))
           (unique_from [] (map fst (attributed p0 (first :: rest)))))).
Proof.
  intros up illegal_chars first rest p0 m0 H.
  unfold _parse_whatsapp.
  rewrite (attribute_whatsapp_group first rest p0 m0 p0 H).
  cbn [bind]. f_equal. unfold group_by_speaker.
  rewrite fold_set_fresh.
  - cbn [app]. unfold tabulate. rewrite map_map. reflexivity.
  - rewrite keys_tabulate. apply unique_from_NoDup.
  - intros k _ [].
Qed.

(** X4. For a log whose first line is a new entry, the run hands the
    renderer one word table per speaker, the speakers in the order of
    their first lines, and each table is [_extract_words] of what that
    speaker wrote, continuation lines included. *)
Theorem whatsapp_run_tables : forall up illegal_chars first rest p0 m0,
  re_new_line first = Some (p0, m0) ->
  let entries := attributed p0 (first :: rest) in
  run up illegal_chars (Whatsapp (first :: rest)) =
  Ok (named
        (tabulate
           (fun p => _extract_words up illegal_chars (messages_of p entries))
           (unique_from [] (map fst entries)))).
Proof.
  intros up illegal_chars first rest p0 m0 H entries.
  unfold run, generate_cloud. cbn [_check_file bind].
  now apply (parse_whatsapp_tables up illegal_chars first rest p0 m0).
Qed.

Lemma whatsapp_run_tables_witness :
  run (fun c => [c]) default_illegal_chars (Whatsapp spec_lines) =
  Ok [(Str (py "Alice"), [(py "HI", 1); (py "THERE", 1)]);
      (Str (py "Bob"), [(py "HELLO", 1); (py "SECOND", 1); (py "LINE", 1);
                        (py "FROM", 1); (py "BOB", 1)])].
Proof.
  refine (eq_trans
            (whatsapp_run_tables (fun c => [c]) default_illegal_chars
               (py "01/01/2020, 10:00 - Alice: Hi there")
               [py "01/01/2020, 10:01 - Bob: Hello!";
                py "Second line from Bob"]
               (py "Alice") (py "Hi there") _) _).
  - vm_compute. reflexivity.
  - vm_compute. reflexivity.
Defined.


(** ** The table as a count *)

Lemma count_table_get : forall ws k,
  dict_get (count_table ws) k =
  if occurrences k ws =? 0 then None else Some (occurrences k ws).
Proof.
  intros ws k. unfold count_table. rewrite tabulate_get.
  destruct (mem k (unique_from [] ws)) eqn:E.
  - apply mem_In, unique_from_In in E as [E _].
    apply occurrences_present in E.
    destruct (occurrences k ws); [lia | reflexivity].
  - rewrite occurrences_absent; [reflexivity|].
    intro H. apply mem_false in E. apply E.
    apply unique_from_In. simpl. tauto.
Qed.

Lemma count_of_table : forall ws k,
  count_of (count_table ws) k = occurrences k ws.
Proof.
  intros ws k. unfold count_of. rewrite count_table_get.
  now destruct (occurrences k ws).
Qed.

Lemma occurrences_app : forall k ws ws',
  occurrences k (ws ++ ws') = occurrences k ws + occurrences k ws'.
Proof. intros. unfold occurrences. now rewrite filter_app, length_app. Qed.

Lemma surviving_app : forall up illegal_chars a b,
  surviving up illegal_chars (a ++ b) =
  surviving up illegal_chars a ++ surviving up illegal_chars b.
Proof.
  intros. unfold surviving. now rewrite flat_map_app, map_app, filter_app.
Qed.

(** X6. The keys of a table are pairwise different and none of them
    holds an illegal character. *)
Theorem table_keys_distinct_and_legal : forall up illegal_chars message_list,
  let word_freq := _extract_words up illegal_chars message_list in
  NoDup (keys word_freq)
  /\ forall k c, In k (keys word_freq) -> In c illegal_chars -> ~ In c k.
Proof.
  intros up illegal_chars message_list word_freq. subst word_freq.
  rewrite extract_words_table. unfold count_table. rewrite keys_tabulate.
  split; [apply unique_from_NoDup|].
  intros k c Hk Hc Hin.
  apply unique_from_In in Hk as [Hk _]. unfold surviving in Hk.
  apply filter_In in Hk as [Hk _]. apply in_map_iff in Hk as [t [<- _]].
  unfold normalize in Hin. rewrite strip_illegal_filter in Hin.
  apply filter_In in Hin as [_ L]. unfold legal in L.
  apply negb_true_iff in L.
  assert (E : existsb (N.eqb c) illegal_chars = true).
  { apply existsb_exists. exists c. split; [assumption | apply N.eqb_refl]. }
  congruence.
Qed.

(** X7. Counting is additive: the count of a word in the table of two
    message lists put together is the sum of its counts in the tables of
    the two. *)
Theorem counts_add_up : forall up illegal_chars a b k,
  count_of (_extract_words up illegal_chars (a ++ b)) k =
  count_of (_extract_words up illegal_chars a) k
  + count_of (_extract_words up illegal_chars b) k.
Proof.
  intros. rewrite !extract_words_table, !count_of_table.
  now rewrite surviving_app, occurrences_app.
Qed.

Lemma Permutation_filter_length : forall {A} (f : A -> bool) l l',
  Permutation l l' ->
  List.length (filter f l) = List.length (filter f l').
Proof.
  intros A f l l' P. induction P; simpl.
  - reflexivity.
  - destruct (f x); simpl; now rewrite IHP.
  - destruct (f x), (f y); reflexivity.
  - congruence.
Qed.

Lemma Permutation_filter_keep : forall {A} (f : A -> bool) l l',
  Permutation l l' -> Permutation (filter f l) (filter f l').
Proof.
  intros A f l l' P. induction P; simpl.
  - constructor.
  - destruct (f x); [now constructor | assumption].
  - destruct (f x), (f y); try reflexivity. constructor.
  - now transitivity (filter f l').
Qed.

(** X8. The order of the messages does not matter for the counts:
    message lists that are permutations of each other give tables with
    the same entry, or none, for every word. *)
Theorem message_order_is_irrelevant : forall up illegal_chars a b k,
  Permutation a b ->
  dict_get (_extract_words up illegal_chars a) k =
  dict_get (_extract_words up illegal_chars b) k.
Proof.
  intros up illegal_chars a b k P.
  rewrite !extract_words_table, !count_table_get.
  assert (E : occurrences k (surviving up illegal_chars a)
              = occurrences k (surviving up illegal_chars b)).
  { unfold occurrences, surviving. apply Permutation_filter_length.
    apply Permutation_filter_keep. apply Permutation_map.
    now apply Permutation_flat_map. }
  now rewrite E.
Qed.

Lemma message_order_is_irrelevant_witness :
  dict_get (_extract_words (fun c => [c]) default_illegal_chars
              [py "one two"; py "two three"]) (py "TWO")
  = dict_get (_extract_words (fun c => [c]) default_illegal_chars
                [py "two three"; py "one two"]) (py "TWO").
Proof.
  apply message_order_is_irrelevant. apply perm_swap.
Defined.

(** ** Total of the counts *)

Lemma total_count_app : forall d d',
  total_count (d ++ d') = total_count d + total_count d'.
Proof. intros. unfold total_count. now rewrite map_app, list_sum_app. Qed.

Lemma total_count_set : forall d k n,
  dict_get d k = Some n ->
  total_count (dict_set d k (n + 1)) = total_count d + 1.
Proof.
  unfold total_count.
  induction d as [|[k0 v0] d IH]; simpl; intros k n H; [discriminate|].
  destruct (str_eqb k0 k).
  - injection H as ->. simpl. lia.
  - simpl. rewrite (IH _ _ H). lia.
Qed.

Lemma total_count_word : forall d w,
  total_count (count_word d w) = total_count d + 1.
Proof.
  intros d w. unfold count_word. destruct (dict_get d w) as [n|] eqn:E.
  - now apply total_count_set.
  - rewrite dict_set_absent by assumption. now rewrite total_count_app.
Qed.

Lemma total_count_fold : forall up illegal_chars tokens d,
  total_count (fold_left (parse_word up illegal_chars) tokens d) =
  total_count d
  + List.length
      (filter re_alphanumeric (map (normalize up illegal_chars) tokens)).
Proof.
  induction tokens as [|t tokens IH]; simpl; intro d; [lia|].
  rewrite IH. unfold parse_word. fold (normalize up illegal_chars t).
  destruct (re_alphanumeric (normalize up illegal_chars t)); simpl.
  - rewrite total_count_word. lia.
  - lia.
Qed.

(** X9. The counts of a table add up to the number of tokens that
    passed the test, which is at most the number of tokens that
    [split] found in the messages. *)
Theorem counts_total_the_surviving_tokens :
  forall up illegal_chars message_list,
    total_count (_extract_words up illegal_chars message_list) =
    List.length (surviving up illegal_chars message_list)
    /\ List.length (surviving up illegal_chars message_list) <=
       List.length (flat_map split message_list).
Proof.
  intros up illegal_chars message_list. split.
  - unfold _extract_words. rewrite total_count_fold. reflexivity.
  - unfold surviving.
    rewrite <- (length_map (normalize up illegal_chars)
                  (flat_map split message_list)).
    apply filter_length_le.
Qed.

(** ** White space between messages and inside them *)

Lemma split_head : forall c s,
  isspace c = false -> exists w ws, split (c :: s) = w :: ws.
Proof.
  intros c s Hc. rewrite split_cons, Hc.
  destruct s as [|c' s']; [now eexists; eexists|].
  destruct (isspace c'); [now eexists; eexists|].
  destruct (split (c' :: s')); now eexists; eexists.
Qed.

Lemma split_app_space : forall a sep b,
  isspace sep = true -> split (a ++ sep :: b) = split a ++ split b.
Proof.
  intros a sep b Hsep. induction a as [|c a IH].
  - cbn [app]. now rewrite split_cons, Hsep.
  - change ((c :: a) ++ sep :: b) with (c :: (a ++ sep :: b)).
    rewrite (split_cons c (a ++ sep :: b)), (split_cons c a).
    destruct (isspace c) eqn:Hc; [exact IH|].
    destruct a as [|c' a'].
    + cbn [app]. rewrite Hsep, split_cons, Hsep. reflexivity.
    + cbn [app] in *. destruct (isspace c') eqn:Hc'.
      * now rewrite IH.
      * rewrite IH. destruct (split_head c' a' Hc') as [w [ws E]].
        now rewrite E.
Qed.

(** X10. Whether a text stands in the list as one message with white
    space in it (a space, a newline, a tab, ...) or as two messages cut
    at that place makes no difference to the table. *)
Theorem white_space_cuts_messages :
  forall up illegal_chars before a sep b after,
    isspace sep = true ->
    _extract_words up illegal_chars (before ++ [a ++ sep :: b] ++ after) =
    _extract_words up illegal_chars (before ++ [a; b] ++ after).
Proof.
  intros up illegal_chars before a sep b after Hsep.
  unfold _extract_words. f_equal.
  rewrite !flat_map_app. f_equal. f_equal.
  cbn [flat_map]. rewrite split_app_space by assumption.
  now rewrite !app_nil_r.
Qed.

Lemma white_space_cuts_messages_witness :
  _extract_words (fun c => [c]) default_illegal_chars
    ([] ++ [py "Hello!" ++ 10%N :: py "Second line"] ++ []) =
  _extract_words (fun c => [c]) default_illegal_chars
    ([] ++ [py "Hello!"; py "Second line"] ++ []).
Proof.
  apply white_space_cuts_messages. reflexivity.
Defined.

(** ** Upper and lower case *)

Ltac no_space :=
  unfold isspace, in_range;
  repeat (apply orb_false_intro);
  first [ apply N.eqb_neq; lia
        | apply andb_false_iff; left; apply N.leb_gt; lia
        | apply andb_false_iff; right; apply N.leb_gt; lia ].

Lemma lower_bounds : forall c, is_lower_az c = true -> (97 <= c <= 122)%N.
Proof.
  intros c H. unfold is_lower_az, in_range in H.
  apply andb_true_iff in H as [H1 H2].
  apply N.leb_le in H1. apply N.leb_le in H2. lia.
Qed.

Lemma ascii_upper_space : forall c, isspace (ascii_upper c) = isspace c.
Proof.
  intros c. unfold ascii_upper. destruct (is_lower_az c) eqn:E;
    [|reflexivity].
  apply lower_bounds in E.
  transitivity false; [|symmetry]; no_space.
Qed.

Lemma ascii_upper_twice : forall c, ascii_upper (ascii_upper c) = ascii_upper c.
Proof.
  intros c. destruct (is_lower_az c) eqn:E.
  - pose proof (lower_bounds c E) as B. unfold ascii_upper. rewrite E.
    unfold is_lower_az, in_range.
    replace (97 <=? c - 32)%N with false by (symmetry; apply N.leb_gt; lia).
    reflexivity.
  - unfold ascii_upper. now rewrite !E.
Qed.

Lemma ascii_upper_small : forall c, (c < 128)%N -> (ascii_upper c < 128)%N.
Proof.
  intros c H. unfold ascii_upper. destruct (is_lower_az c); lia.
Qed.

Lemma upper_char_ascii : forall up c,
  (c < 128)%N -> upper_char up c = [ascii_upper c].
Proof.
  intros up c H. unfold upper_char, ascii_upper.
  destruct (is_lower_az c); [reflexivity|].
  apply N.ltb_lt in H. now rewrite H.
Qed.

Lemma upper_ascii : forall up s,
  ascii_text s -> upper up s = map ascii_upper s.
Proof.
  intros up s H. unfold upper. induction H as [|c s Hc Hs IH];
    [reflexivity|].
  simpl. now rewrite upper_char_ascii, IH.
Qed.

Lemma ascii_text_upper : forall s, ascii_text s -> ascii_text (map ascii_upper s).
Proof.
  intros s H. unfold ascii_text in *. apply Forall_map.
  eapply Forall_impl; [|exact H]. apply ascii_upper_small.
Qed.

Lemma upper_twice : forall up s,
  ascii_text s -> upper up (upper up s) = upper up s.
Proof.
  intros up s H.
  rewrite (upper_ascii up s H).
  rewrite (upper_ascii up _ (ascii_text_upper s H)).
  rewrite map_map. apply map_ext. apply ascii_upper_twice.
Qed.

Lemma split_map : forall f s,
  (forall c, isspace (f c) = isspace c) ->
  split (map f s) = map (map f) (split s).
Proof.
  intros f s Hf. induction s as [|c s IH]; [reflexivity|].
  cbn [map]. rewrite !split_cons, Hf.
  destruct (isspace c); [exact IH|].
  destruct s as [|c' s']; [reflexivity|].
  cbn [map] in *. rewrite Hf.
  destruct (isspace c'); [now rewrite IH|].
  rewrite IH. now destruct (split (c' :: s')).
Qed.

Lemma split_chars : forall s w c, In w (split s) -> In c w -> In c s.
Proof.
  induction s as [|x s IH]; intros w c Hw Hc; [contradiction|].
  rewrite split_cons in Hw.
  assert (Single : w = [x] -> In c (x :: s)).
  { intros ->. destruct Hc as [<-|[]]. now left. }
  destruct (isspace x); [right; now apply (IH w)|].
  destruct s as [|x' s'].
  - destruct Hw as [<-|[]]. now apply Single.
  - destruct (isspace x').
    + destruct Hw as [<-|Hw]; [now apply Single | right; now apply (IH w)].
    + destruct (split (x' :: s')) as [|w0 ws] eqn:E.
      * destruct Hw as [<-|[]]. now apply Single.
      * destruct Hw as [<-|Hw].
        -- destruct Hc as [<-|Hc]; [now left|].
           right. apply (IH w0); [now left | exact Hc].
        -- right. apply (IH w); [now right | exact Hc].
Qed.

Lemma split_ascii : forall s w, ascii_text s -> In w (split s) -> ascii_text w.
Proof.
  intros s w Hs Hw. unfold ascii_text in *. rewrite Forall_forall in *.
  intros c Hc. apply Hs. now apply (split_chars s w).
Qed.

Lemma tokens_of_upper : forall up m,
  ascii_text m -> split (upper up m) = map (upper up) (split m).
Proof.
  intros up m H. rewrite (upper_ascii up m H).
  rewrite split_map by apply ascii_upper_space.
  apply map_ext_in. intros w Hw. symmetry. apply upper_ascii.
  now apply (split_ascii m).
Qed.

Lemma surviving_upper : forall up illegal_chars message_list,
  Forall ascii_text message_list ->
  surviving up illegal_chars (map (upper up) message_list) =
  surviving up illegal_chars message_list.
Proof.
  intros up illegal_chars message_list H. unfold surviving. f_equal.
  induction H as [|m ms Hm Hms IH]; [reflexivity|].
  cbn [map flat_map]. rewrite !map_app, IH. f_equal.
  rewrite tokens_of_upper by assumption. rewrite map_map.
  apply map_ext_in. intros w Hw. unfold normalize.
  rewrite upper_twice; [reflexivity|]. now apply (split_ascii m).
Qed.

(** X11. Case does not count: lists of ASCII messages that are the
    same once put in upper case give the same table. *)
Theorem case_is_ignored : forall up illegal_chars a b,
  Forall ascii_text a -> Forall ascii_text b ->
  map (upper up) a = map (upper up) b ->
  _extract_words up illegal_chars a = _extract_words up illegal_chars b.
Proof.
  intros up illegal_chars a b Ha Hb E.
  rewrite !extract_words_table.
  rewrite <- (surviving_upper up illegal_chars a Ha).
  rewrite <- (surviving_upper up illegal_chars b Hb).
  now rewrite E.
Qed.

Lemma case_is_ignored_witness :
  _extract_words (fun c => [c]) default_illegal_chars [py "cat Cat"; py "CAT"]
  = _extract_words (fun c => [c]) default_illegal_chars [py "CAT cat"; py "cAt"].
Proof.
  apply case_is_ignored.
  - repeat constructor.
  - repeat constructor.
  - vm_compute. reflexivity.
Defined.

(** ** The illegal characters as a set *)

Lemma legal_same : forall ill1 ill2 x,
  (forall c, In c ill1 <-> In c ill2) -> legal ill1 x = legal ill2 x.
Proof.
  intros ill1 ill2 x H. unfold legal. f_equal.
  destruct (existsb (N.eqb x) ill2) eqn:E.
  - apply existsb_exists in E as [c [Hc E]].
    apply existsb_exists. exists c. split; [now apply H | exact E].
  - destruct (existsb (N.eqb x) ill1) eqn:E1; [|reflexivity].
    apply existsb_exists in E1 as [c [Hc E1]].
    assert (E2 : existsb (N.eqb x) ill2 = true).
    { apply existsb_exists. exists c. split; [now apply H | exact E1]. }
    congruence.
Qed.

(** X12. Only the set of the illegal characters counts: two strings
    of illegal characters with the same members, in whatever order and
    however often repeated, give the same table. *)
Theorem illegal_chars_are_a_set : forall up ill1 ill2 message_list,
  (forall c, In c ill1 <-> In c ill2) ->
  _extract_words up ill1 message_list = _extract_words up ill2 message_list.
Proof.
  intros up ill1 ill2 message_list H.
  rewrite !extract_words_table. unfold surviving. do 2 f_equal.
  apply map_ext. intro t. unfold normalize.
  rewrite !strip_illegal_filter. apply filter_ext. intro x.
  now apply legal_same.
Qed.

Lemma illegal_chars_are_a_set_witness :
  _extract_words (fun c => [c]) (py ".,!?;:") [py "Hi, there!"]
  = _extract_words (fun c => [c]) (py ":;?!,..") [py "Hi, there!"].
Proof.
  apply illegal_chars_are_a_set.
  intro c. split; intro H; vm_compute in H |- *; tauto.
Defined.

(** ** Words with other characters *)

Lemma re_alphanumeric_chars : forall w c,
  re_alphanumeric w = true -> In c w ->
  alphanumeric_class c = true \/ c = 10%N.
Proof.
  intros w c H Hc. unfold re_alphanumeric in H.
  apply match_class_spec in H; [|reflexivity].
  destruct H as [body [Hs [Hbody _]]]. rewrite forallb_forall in Hbody.
  destruct Hs as [->| ->]; [left; now apply Hbody|].
  apply in_app_or in Hc as [Hc|[<-|[]]]; [left; now apply Hbody | now right].
Qed.

(** X13. A word with an ASCII character that is no letter, no digit
    and not illegal, such as a hyphen or an apostrophe, is left out
    whole: alone, it gives the empty table. *)
Theorem word_with_other_character_is_dropped :
  forall up illegal_chars t c,
    spaceless t -> In c t ->
    (c < 128)%N -> is_letter_or_digit c = false -> ~ In c illegal_chars ->
    _extract_words up illegal_chars [t] = [].
Proof.
  intros up illegal_chars t c Ht Hc Hascii Hother Hlegal.
  assert (Hne : t <> []) by (intros ->; contradiction).
  unfold _extract_words. cbn [flat_map]. rewrite app_nil_r.
  rewrite split_word by assumption. cbn [fold_left].
  unfold parse_word. fold (normalize up illegal_chars t).
  destruct (re_alphanumeric (normalize up illegal_chars t)) eqn:E;
    [|reflexivity].
  exfalso.
  unfold is_letter_or_digit in Hother.
  apply orb_false_iff in Hother as [Hother Hdigit].
  apply orb_false_iff in Hother as [Hupper Hlower].
  assert (Hin : In c (normalize up illegal_chars t)).
  { unfold normalize. rewrite strip_illegal_filter. apply filter_In. split.
    - unfold upper. apply in_flat_map. exists c. split; [assumption|].
      unfold upper_char. rewrite Hlower.
      apply N.ltb_lt in Hascii. rewrite Hascii. now left.
    - unfold legal. apply negb_true_iff.
      destruct (existsb (N.eqb c) illegal_chars) eqn:Ex; [|reflexivity].
      apply existsb_exists in Ex as [x [Hx Ex]].
      apply N.eqb_eq in Ex. subst x. contradiction. }
  destruct (re_alphanumeric_chars _ _ E Hin) as [A|A].
  - unfold alphanumeric_class in A. rewrite Hupper, Hdigit in A.
    discriminate.
  - subst c. now apply (spaceless_no_newline t Ht).
Qed.

Lemma word_with_other_character_is_dropped_witness :
  _extract_words (fun c => [c]) default_illegal_chars [py "don't"] = [].
Proof.
  apply (word_with_other_character_is_dropped (fun c => [c])
           default_illegal_chars (py "don't") 39%N).
  - vm_compute. reflexivity.
  - vm_compute. tauto.
  - reflexivity.
  - reflexivity.
  - vm_compute. intros [H|[H|[H|[H|[H|[H|[]]]]]]]; discriminate H.
Defined.

(** ** Timestamps have no hyphen *)

Lemma re_timestamp_no_hyphen : forall s,
  re_timestamp s = true -> ~ In (chr "-") s.
Proof.
  intros s H Hin. unfold re_timestamp in H.
  apply match_class_spec in H; [|reflexivity].
  destruct H as [body [Hs [Hbody _]]]. rewrite forallb_forall in Hbody.
  assert (B : In (chr "-") body).
  { destruct Hs as [->| ->]; [assumption|].
    apply in_app_or in Hin as [Hin|[E|[]]]; [assumption | discriminate E]. }
  specialize (Hbody _ B). discriminate Hbody.
Qed.

Lemma all_cells_no_hyphen : forall cells,
  all_cells re_timestamp cells = true ->
  forall s, In (Str s) cells -> ~ In (chr "-") s.
Proof.
  intros cells H s Hs. apply re_timestamp_no_hyphen.
  unfold all_cells in H. rewrite forallb_forall in H.
  exact (H _ Hs).
Qed.

(** X14. The timestamp role goes to a column only when some row has
    the label [len - 1] and every cell down to that row matches the
    timestamp pattern; no such cell holds a hyphen, so a column of dates
    written with hyphens, as in 2020-01-17, is never the timestamp column.
    With the default index the row is the last one and the cells are all
    the cells of the column. *)
Theorem timestamp_role_excludes_hyphens : forall df r col,
  well_formed df = true -> infer_roles df = Ok r ->
  time_col r = Some col ->
  exists cells n l,
    column df col = Some cells
    /\ nth_error (index df) n = Some l
    /\ label_is l (Z.of_nat (len df) - 1) = true
    /\ all_cells re_timestamp (firstn (S n) cells) = true
    /\ (forall s, In (Str s) (firstn (S n) cells) -> ~ In (chr "-") s)
    /\ (default_index df ->
        all_cells re_timestamp cells = true
        /\ forall s, In (Str s) cells -> ~ In (chr "-") s).
Proof.
  intros df r col WF H Ht. unfold infer_roles in H.
  destruct (infer_roles_tests df _ _ _ (well_formed_labels df WF)
              no_roles_settled H) as [IT _].
  destruct (IT col Ht) as [A|T]; [discriminate|].
  destruct (test_column_found df WF _ _ _ T)
    as [cells [n [l [A [_ [C [E F]]]]]]].
  exists cells, n, l. repeat split; try assumption.
  - now apply all_cells_no_hyphen.
  - rewrite (default_index_last df n l cells) in F; try assumption.
    apply (well_formed_length df WF col cells). now apply column_In.
  - rewrite (default_index_last df n l cells) in F; try assumption.
    + now apply all_cells_no_hyphen.
    + apply (well_formed_length df WF col cells). now apply column_In.
Qed.

Lemma timestamp_role_excludes_hyphens_witness :
  exists cells,
    column codes_and_text (py "A") = Some cells
    /\ all_cells re_timestamp cells = true
    /\ forall s, In (Str s) cells -> ~ In (chr "-") s.
Proof.
  destruct (timestamp_role_excludes_hyphens codes_and_text
              {| name_col := None; time_col := Some (py "A");
                 message_col := Some (py "B") |} (py "A"))
    as [cells [n [l [A [_ [_ [_ [_ F]]]]]]]].
  - vm_compute. reflexivity.
  - vm_compute. reflexivity.
  - reflexivity.
  - exists cells. split; [exact A|]. apply F. vm_compute. reflexivity.
Defined.

(** ** One role for a column *)

Lemma role_columns_step : forall df r col r1,
  col <> [] -> settled r -> check_column df r col = Ok r1 ->
  role_columns r1 = role_columns r
  \/ Add col (role_columns r) (role_columns r1).
Proof.
  intros df r col r1 Hc Hr E. unfold role_columns.
  destruct (check_column_cases _ _ _ _ Hc Hr E)
    as [->|[[T [_ ->]]|[[N [_ ->]]|[M ->]]]]; simpl.
  - now left.
  - right. rewrite T. simpl. apply Add_app.
  - right. rewrite N. simpl. apply Add_head.
  - right. rewrite M. simpl. rewrite !app_assoc. apply Add_app.
Qed.

Lemma infer_roles_columns : forall df cols r r',
  (forall c, In c cols -> c <> []) -> NoDup cols -> settled r ->
  NoDup (role_columns r) ->
  (forall c, In c (role_columns r) -> ~ In c cols) ->
  for_each (check_column df) cols r = Ok r' ->
  NoDup (role_columns r')
  /\ forall c, In c (role_columns r') -> In c (role_columns r) \/ In c cols.
Proof.
  intros df. induction cols as [|col cols IH];
    intros r r' Hne ND Hr NDr Hfresh H; simpl in H.
  - injection H as <-. split; [assumption | now left].
  - destruct (check_column df r col) as [r1|] eqn:E; [|discriminate].
    simpl in H. inversion ND as [|? ? Hcol ND']; subst.
    assert (Hc : col <> []) by (apply Hne; now left).
    pose proof (check_column_settled _ _ _ _ Hc Hr E) as Hr1.
    assert (Hx : ~ In col (role_columns r)).
    { intro Hin. apply (Hfresh col Hin). now left. }
    assert (Step : NoDup (role_columns r1)
                   /\ forall c, In c (role_columns r1) ->
                                In c (role_columns r) \/ c = col).
    { destruct (role_columns_step _ _ _ _ Hc Hr E) as [->|A].
      - split; [assumption | now left].
      - split.
        + apply (NoDup_Add A). now split.
        + intros c Hin. apply (Add_in A) in Hin as [<-|Hin];
            [now right | now left]. }
    destruct Step as [ND1 Hin1].
    destruct (IH r1 r' (fun x Hx' => Hne x (or_intror Hx')) ND' Hr1 ND1)
      as [NDr' Hin']; [|assumption|].
    + intros c Hc1 Hc2. destruct (Hin1 c Hc1) as [Hold| ->].
      * apply (Hfresh c Hold). now right.
      * contradiction.
    + split; [assumption|]. intros c Hc'.
      destruct (Hin' c Hc') as [H1|H1]; [|right; now right].
      destruct (Hin1 c H1) as [H2| ->]; [now left | right; now left].
Qed.

(** X15. On a well-formed frame the roles that the inference ends
    with are labels of the frame and no column holds two of them. *)
Theorem roles_are_distinct_columns : forall df r,
  well_formed df = true -> infer_roles df = Ok r ->
  NoDup (role_columns r) /\ incl (role_columns r) (columns df).
Proof.
  intros df r WF H. unfold infer_roles in H.
  destruct (infer_roles_columns df (columns df) no_roles r
              (well_formed_labels df WF)
              (distinct_NoDup _ (well_formed_distinct df WF))
              no_roles_settled) as [ND Hin]; try assumption.
  - constructor.
  - intros c [].
  - split; [assumption|]. intros c Hc.
    destruct (Hin c Hc) as [[]|Hc']. exact Hc'.
Qed.

Lemma roles_are_distinct_columns_witness :
  NoDup [py "who"; py "text"]
  /\ incl [py "who"; py "text"] (columns (many_names 2)).
Proof.
  apply (roles_are_distinct_columns (many_names 2)
           {| name_col := Some (py "who"); time_col := None;
              message_col := Some (py "text") |}).
  - vm_compute. reflexivity.
  - vm_compute. reflexivity.
Defined.

(** ** Grouping the rows by name *)

Lemma select_all_str : forall mask cells,
  forallb is_str cells = true -> forallb is_str (select mask cells) = true.
Proof.
  induction mask as [|b mask IH]; intros [|c cells] H; simpl;
    try reflexivity.
  simpl in H. apply andb_true_iff in H as [Hc Hcells].
  destruct b; simpl; [rewrite Hc|]; now apply IH.
Qed.

Lemma extract_series_cases : forall up illegal_chars cells,
  extract_series up illegal_chars cells =
  if forallb is_str cells
  then Ok (_extract_words up illegal_chars (texts cells))
  else Raise AttributeError.
Proof. reflexivity. Qed.

Lemma for_each_names :
  forall (body : names_dict -> cell -> result names_dict)
         (g : cell -> dict nat) ks acc,
    NoDup ks ->
    (forall k, In k ks -> ~ In k (map fst acc)) ->
    (forall wd k, In k ks -> body wd k = Ok (set_words wd k (g k))) ->
    for_each body ks acc = Ok (acc ++ map (fun k => (k, g k)) ks).
Proof.
  intros body g. induction ks as [|k ks IH]; intros acc ND Hfresh Hbody.
  - simpl. now rewrite app_nil_r.
  - inversion ND as [|? ? Hk ND']; subst. cbn [for_each].
    rewrite Hbody by now left. cbn [bind].
    rewrite set_words_fresh by (apply Hfresh; now left).
    rewrite IH; [simpl; now rewrite <- app_assoc | assumption | |].
    + intros k' Hk'. rewrite map_app, in_app_iff. simpl.
      intros [H|[H|[]]].
      * apply (Hfresh k'); [now right | assumption].
      * subst. contradiction.
    + intros wd k' Hk'. apply Hbody. now right.
Qed.

(** The body of the loop over the names, once the two columns are known. *)
Lemma words_of_name_body : forall up illegal_chars df r n m N M wd who,
  name_col r = Some n -> message_col r = Some m ->
  column df n = Some N -> column df m = Some M ->
  words_of_name up illegal_chars df r wd who =
  bind (extract_series up illegal_chars (rows_of who N M))
    (fun words => Ok (set_words wd who words)).
Proof.
  intros up illegal_chars df r n m N M wd who Hn Hm HN HM.
  unfold words_of_name, getitem. rewrite Hn, Hm, HN. cbn [bind].
  now rewrite column_loc, HM.
Qed.

(** X16. When the inference has found the name column and the message
    column, and the message cells are all [str], the run hands over one
    table per distinct value of the name column, in the order of their
    first rows, and each table is [_extract_words] of the message cells of
    the rows with that name, in row order; the timestamp column plays no
    part.  An empty name cell, which the inference can leave in the name
    column when the row labels are not the default ones, is a name of its
    own with an empty table: no row equals NaN. *)
Theorem csv_run_groups_rows_by_name :
  forall up illegal_chars df r n m N M,
    _check_file (Csv df) = Ok tt ->
    infer_roles df = Ok r ->
    name_col r = Some n -> message_col r = Some m ->
    column df n = Some N -> column df m = Some M ->
    forallb is_str M = true ->
    run up illegal_chars (Csv df) =
    Ok (map (fun who => (who, _extract_words up illegal_chars
                                (texts (rows_of who N M))))
          (unique N)).
Proof.
  intros up illegal_chars df r n m N M Hcheck Hr Hn Hm HN HM Hstr.
  unfold run. rewrite Hcheck. cbn [bind generate_cloud].
  unfold _parse_csv. rewrite Hr. cbn [bind].
  unfold getitem at 1. rewrite Hn, HN. cbn [bind].
  rewrite (for_each_names _
             (fun who => _extract_words up illegal_chars
                           (texts (rows_of who N M)))).
  - reflexivity.
  - apply unique_values_NoDup.
  - intros k _ [].
  - intros wd who _.
    rewrite (words_of_name_body up illegal_chars df r n m N M)
      by assumption.
    rewrite extract_series_cases.
    unfold rows_of. now rewrite select_all_str.
Qed.

Lemma csv_run_groups_rows_by_name_witness :
  run (fun c => [c]) default_illegal_chars
    (Csv (plain_frame
            [(py "when", [Str (py "10:00"); Str (py "10:01");
                          Str (py "10:02")]);
             (py "who", [Str (py "Bob"); Str (py "Alice"); Str (py "Bob")]);
             (py "text", [Str (py "Hello, Alice!"); Str (py "Hello Bob");
                          Str (py "How are you?")])]))
  = Ok [(Str (py "Bob"), [(py "HELLO", 1); (py "ALICE", 1); (py "HOW", 1);
                          (py "ARE", 1); (py "YOU", 1)]);
        (Str (py "Alice"), [(py "HELLO", 1); (py "BOB", 1)])].
Proof.
  refine (eq_trans
            (csv_run_groups_rows_by_name (fun c => [c]) default_illegal_chars
               _ {| name_col := Some (py "who"); time_col := Some (py "when");
                    message_col := Some (py "text") |}
               (py "who") (py "text") _ _ _ _ eq_refl eq_refl _ _ _) _).
  - reflexivity.
  - vm_compute. reflexivity.
  - reflexivity.
  - reflexivity.
  - reflexivity.
  - vm_compute. reflexivity.
Defined.

(** ** Cells that are not text *)

Lemma combine_middle : forall {A} (idx : list A) before (c : cell) after,
  List.length idx = List.length (before ++ c :: after) ->
  exists rows l rest,
    combine idx (before ++ c :: after) = rows ++ (l, c) :: rest
    /\ map snd rows = before.
Proof.
  intros A idx before. revert idx.
  induction before as [|b before IH]; intros [|i idx] c after L;
    try discriminate.
  - exists [], i, (combine idx after). now split.
  - injection L as L. destruct (IH idx c after L) as [rows [l [rest [E M]]]].
    exists ((i, b) :: rows), l, rest. simpl. rewrite E, M. now split.
Qed.

(** X17. When the first column holds a cell that is not a [str], an
    empty field or a number, and the cells above it match the timestamp
    pattern, the inference ends with [TypeError] whatever the row labels
    are, and so does the run on a table of up to three columns. *)
Theorem first_column_not_text_raises :
  forall up illegal_chars idx col before c after others,
    let df := {| index := idx;
                 data := (col, before ++ c :: after) :: others |} in
    List.length idx = List.length (before ++ c :: after) ->
    is_str c = false ->
    all_cells re_timestamp before = true ->
    List.length (data df) <= 3 ->
    infer_roles df = Raise TypeError
    /\ run up illegal_chars (Csv df) = Raise TypeError.
Proof.
  intros up illegal_chars idx col before c after others df L Hc Hbefore Hcols.
  assert (I : infer_roles df = Raise TypeError).
  { unfold infer_roles, df. cbn [columns data map fst for_each].
    unfold check_column. cbn [truthy time_col no_roles].
    unfold test_column, getitem, column. cbn [data lookup].
    rewrite str_eqb_refl. cbn [bind]. unfold iterrows. cbn [index].
    destruct (combine_middle idx before c after L)
      as [rows [l [rest [E M]]]].
    rewrite E, scan_rows_not_str; [reflexivity | now rewrite M | assumption]. }
  split; [exact I|].
  unfold run, _check_file, shape.
  replace (3 <? List.length (data df)) with false
    by (symmetry; apply Nat.ltb_ge; exact Hcols).
  replace (len df <? 1) with false.
  - cbn [bind generate_cloud]. unfold _parse_csv. now rewrite I.
  - symmetry. apply Nat.ltb_ge. unfold df, len. cbn [index].
    rewrite L, length_app. simpl. lia.
Qed.

Lemma first_column_not_text_raises_witness :
  run (fun c => [c]) default_illegal_chars
    (Csv {| index := [IntLabel 0; IntLabel 1; IntLabel 2];
            data :=
              [(py "when", [Str (py "10:00")] ++ NaN :: [Str (py "10:02")]);
               (py "text", [Str (py "a"); Str (py "b"); Str (py "c")])] |})
  = Raise TypeError.
Proof.
  refine (proj2 (first_column_not_text_raises (fun c => [c])
                   default_illegal_chars
                   [IntLabel 0; IntLabel 1; IntLabel 2]
                   (py "when") [Str (py "10:00")] NaN
                   [Str (py "10:02")]
                   [(py "text", [Str (py "a"); Str (py "b"); Str (py "c")])]
                   _ _ _ _)).
  - reflexivity.
  - reflexivity.
  - vm_compute. reflexivity.
  - simpl. lia.
Defined.

Lemma for_each_raises :
  forall {A S} (body : S -> A -> result S) e items st,
    (forall st x, In x items ->
                  (exists st', body st x = Ok st') \/ body st x = Raise e) ->
    (exists x, In x items /\ forall st, body st x = Raise e) ->
    for_each body items st = Raise e.
Proof.
  intros A S body e. induction items as [|x items IH]; intros st Hall Hex.
  - destruct Hex as [x [[] _]].
  - cbn [for_each].
    destruct (Hall st x (or_introl eq_refl)) as [[st' E]|E]; rewrite E;
      [|reflexivity].
    cbn [bind]. apply IH.
    + intros st0 y Hy. apply Hall. now right.
    + destruct Hex as [y [[<-|Hy] Hraise]]; [|now exists y].
      rewrite Hraise in E. discriminate.
Qed.

(** The rows of a name hold every message that stands beside it. *)
Lemma rows_of_In : forall N M who x,
  In (who, x) (combine N M) -> cell_eq who who = true ->
  In x (rows_of who N M).
Proof.
  unfold rows_of.
  induction N as [|c N IH]; intros [|y M] who x H E; try contradiction.
  cbn [map select]. destruct H as [H|H].
  - injection H as -> ->. unfold cell_is at 1. rewrite E. now left.
  - destruct (cell_is who c); [right|]; now apply IH.
Qed.

Lemma cell_eq_refl : forall c, c <> NaN -> cell_eq c c = true.
Proof.
  intros [s| |x] H; simpl.
  - apply str_eqb_refl.
  - contradiction.
  - apply Z.eqb_refl.
Qed.

Lemma all_cells_str : forall re cells,
  all_cells re cells = true -> forallb is_str cells = true.
Proof.
  intros re. induction cells as [|[s| |x] cells IH]; simpl; intro H;
    try discriminate; [reflexivity|].
  apply andb_true_iff in H as [_ H]. now apply IH.
Qed.

Lemma not_all_str : forall cells,
  forallb is_str cells = false -> exists x, In x cells /\ is_str x = false.
Proof.
  induction cells as [|c cells IH]; simpl; intro H; [discriminate|].
  apply andb_false_iff in H as [H|H].
  - exists c. split; [now left | assumption].
  - destruct (IH H) as [x [Hx Hs]]. exists x. split; [now right | assumption].
Qed.

Lemma combine_beside : forall {A B} (a : list A) (b : list B) y,
  List.length a = List.length b -> In y b -> exists x, In (x, y) (combine a b).
Proof.
  induction a as [|x a IH]; intros [|y' b] y L H; try discriminate;
    try contradiction.
  injection L as L. destruct H as [->|H].
  - exists x. now left.
  - destruct (IH b y L H) as [x' Hx]. exists x'. now right.
Qed.

Lemma message_beside_name_raises :
  forall up illegal_chars df r n m N M who x,
    infer_roles df = Ok r ->
    name_col r = Some n -> message_col r = Some m ->
    column df n = Some N -> column df m = Some M ->
    In (who, x) (combine N M) -> who <> NaN -> is_str x = false ->
    _parse_csv up illegal_chars df [] = Raise AttributeError.
Proof.
  intros up illegal_chars df r n m N M who x Hr Hn Hm HN HM Hin Hwho Hx.
  unfold _parse_csv. rewrite Hr. cbn [bind].
  unfold getitem at 1. rewrite Hn, HN. cbn [bind].
  apply for_each_raises.
  - intros wd name _.
    rewrite (words_of_name_body up illegal_chars df r n m N M)
      by assumption.
    rewrite extract_series_cases.
    destruct (forallb is_str (rows_of name N M));
      [left; now eexists | now right].
  - exists who. split.
    + apply unique_In. apply in_combine_l in Hin. exact Hin.
    + intro wd.
      rewrite (words_of_name_body up illegal_chars df r n m N M)
        by assumption.
      rewrite extract_series_cases.
      replace (forallb is_str (rows_of who N M)) with false; [reflexivity|].
      symmetry. apply not_true_is_false. intro T.
      rewrite forallb_forall in T.
      specialize (T x (rows_of_In N M who x Hin (cell_eq_refl who Hwho))).
      congruence.
Qed.

(** X18. When the inference has found the name column and the message
    column and some message cell is not a [str], as for an empty field,
    beside a name cell that is not empty, [_parse_csv] ends with the
    [AttributeError] of [split], whichever row the cell is in.  With the
    default index no name cell is empty, and any message cell that is not
    a [str] has this effect. *)
Theorem message_not_text_raises :
  (forall up illegal_chars df r n m N M who x,
     infer_roles df = Ok r ->
     name_col r = Some n -> message_col r = Some m ->
     column df n = Some N -> column df m = Some M ->
     In (who, x) (combine N M) -> who <> NaN -> is_str x = false ->
     _parse_csv up illegal_chars df [] = Raise AttributeError)
  /\ (forall up illegal_chars df r n m M,
        well_formed df = true -> default_index df ->
        infer_roles df = Ok r ->
        name_col r = Some n -> message_col r = Some m ->
        column df m = Some M -> forallb is_str M = false ->
        _parse_csv up illegal_chars df [] = Raise AttributeError).
Proof.
  split; [exact message_beside_name_raises|].
  intros up illegal_chars df r n m M WF D Hr Hn Hm HM Hnot.
  destruct (name_column_str df r n WF D Hr Hn) as [N [HN Hall]].
  assert (L : List.length N = List.length M).
  { rewrite (well_formed_length df WF n N (column_In _ _ _ HN)).
    now rewrite (well_formed_length df WF m M (column_In _ _ _ HM)). }
  destruct (not_all_str M Hnot) as [x [Hx Hs]].
  destruct (combine_beside N M x L Hx) as [who Hin].
  apply (message_beside_name_raises up illegal_chars df r n m N M who x);
    try assumption.
  intros ->. apply in_combine_l in Hin.
  apply all_cells_str in Hall. rewrite forallb_forall in Hall.
  specialize (Hall NaN Hin). discriminate.
Qed.

Lemma message_not_text_raises_witness :
  _parse_csv (fun c => [c]) default_illegal_chars
    (plain_frame
       [(py "when", [Str (py "10:00"); Str (py "10:01")]);
        (py "who", [Str (py "Bob"); Str (py "Alice")]);
        (py "text", [Str (py "Hello"); NaN])]) []
  = Raise AttributeError.
Proof.
  apply (proj2 message_not_text_raises (fun c => [c]) default_illegal_chars _
           {| name_col := Some (py "who"); time_col := Some (py "when");
              message_col := Some (py "text") |}
           (py "who") (py "text") [Str (py "Hello"); NaN]).
  - vm_compute. reflexivity.
  - vm_compute. reflexivity.
  - vm_compute. reflexivity.
  - reflexivity.
  - reflexivity.
  - reflexivity.
  - reflexivity.
Defined.

(** ** The ways a run on a table can fail *)




(** ** Senders that the pattern does not take *)

(** X20. A line with the date and time in front is not a new entry
    when the sender holds a character outside [A-Za-z0-9 -] before any
    colon, as the plus sign of a telephone number or an accented letter
    does: the loop takes the whole line for a continuation and gives it
    to the current speaker. *)
Theorem other_sender_is_continuation :
  forall pre good c more cur d,
    match_items datetime_prefix pre = Some [] ->
    forallb name_class good = true ->
    name_class c = false -> c <> chr ":" ->
    let line := pre ++ good ++ c :: more in
    re_new_line line = None
    /\ whatsapp_line {| person := Some cur; person_data := d |} line =
       Ok {| person := Some cur; person_data := append_message d cur line |}.
Proof.
  intros pre good c more cur d Hpre Hgood Hc Hcolon line.
  assert (H : re_new_line line = None).
  { unfold line, re_new_line. rewrite (match_items_app _ _ _ Hpre).
    rewrite (span_stop name_class good c more Hgood Hc).
    destruct ((1 <=? List.length good) && (List.length good <=? 30));
      [|reflexivity].
    cbn [match_items]. unfold lit at 1.
    apply N.eqb_neq in Hcolon. now rewrite Hcolon. }
  split; [exact H | now apply continuation_line].
Qed.

Lemma other_sender_is_continuation_witness :
  re_new_line (py "17/01/2018, 19:15 - " ++ [] ++ chr "+"
               :: py "44 7700 900123: hello") = None.
Proof.
  refine (proj1 (other_sender_is_continuation (py "17/01/2018, 19:15 - ")
                   [] (chr "+") (py "44 7700 900123: hello") (py "Bob") []
                   _ _ _ _)).
  - vm_compute. reflexivity.
  - reflexivity.
  - reflexivity.
  - discriminate.
Defined.

(** ** The names of the images *)

Lemma output_file_name_injective : forall stem colour n1 n2,
  output_file_name n1 stem colour = output_file_name n2 stem colour ->
  n1 = n2.
Proof.
  intros stem colour n1 n2 H. unfold output_file_name in H.
  apply app_inv_head in H. now apply app_inv_tail in H.
Qed.

(** X21. In one run, with its one mask and one colour, different
    speakers get different image names: no image is written over
    another. *)
Theorem images_do_not_collide : forall stem colour names,
  NoDup names ->
  NoDup (map (fun name => output_file_name name stem colour) names).
Proof.
  intros stem colour names ND.
  induction ND as [|name names Hname ND IH]; simpl; constructor;
    [|exact IH].
  intro H. apply in_map_iff in H as [other [E Hother]].
  apply output_file_name_injective in E. now subst.
Qed.

Lemma images_do_not_collide_witness :
  NoDup (map (fun name => output_file_name name (py "heart") (py "GnBu"))
           [py "Alice"; py "Bob"]).
Proof.
  apply images_do_not_collide.
  constructor; [|constructor; [|constructor]].
  - intros [H|[]]. discriminate H.
  - intros [].
Defined.

(** ** The order of the columns *)

(** X22. On a frame with the default index, with one column of
    timestamps, one column of names that are not all timestamps and one
    column that is neither, the roles do not depend on the order of the
    three columns. *)
Theorem roles_do_not_depend_on_column_order :
  forall idx t n m T N M cols,
    In cols (orders3 (t, T) (n, N) (m, M)) ->
    let df := {| index := idx; data := cols |} in
    well_formed df = true -> default_index df ->
    all_str df = true -> 1 <= len df ->
    all_cells re_timestamp T = true ->
    all_cells re_timestamp N = false ->
    all_cells re_name N = true -> List.length (unique N) <= 255 ->
    all_cells re_timestamp M = false ->
    all_cells re_name M && (List.length (unique M) <=? 255) = false ->
    infer_roles df =
    Ok {| name_col := Some n; time_col := Some t; message_col := Some m |}.
Proof.
  intros idx t n m T N M cols Hcols df WF D Hstr Hlen HT HNT HN Hfew HMT HMN.
  rewrite infer_roles_rules by assumption.
  apply Nat.leb_le in Hfew.
  unfold orders3 in Hcols. simpl in Hcols. unfold df.
  destruct Hcols as [<-|[<-|[<-|[<-|[<-|[<-|[]]]]]]];
    unfold roles_by_rules; simpl;
    rewrite ?HT, ?HNT, ?HN, ?Hfew, ?HMT, ?HMN; simpl;
    rewrite ?HT, ?HNT, ?HN, ?Hfew, ?HMT, ?HMN; simpl;
    rewrite ?HT, ?HNT, ?HN, ?Hfew, ?HMT, ?HMN; simpl;
    reflexivity.
Qed.

Lemma roles_do_not_depend_on_column_order_witness :
  infer_roles
    {| index := [IntLabel 0; IntLabel 1];
       data :=
         [(py "text", [Str (py "Hello, Alice!"); Str (py "Hello Bob")]);
          (py "who", [Str (py "Bob"); Str (py "Alice")]);
          (py "when", [Str (py "10:00"); Str (py "10:01")])] |}
  = Ok {| name_col := Some (py "who"); time_col := Some (py "when");
          message_col := Some (py "text") |}.
Proof.
  apply (roles_do_not_depend_on_column_order [IntLabel 0; IntLabel 1] _ _ _
           [Str (py "10:00"); Str (py "10:01")]
           [Str (py "Bob"); Str (py "Alice")]
           [Str (py "Hello, Alice!"); Str (py "Hello Bob")]).
  - unfold orders3. do 5 right. left. reflexivity.
  - vm_compute. reflexivity.
  - vm_compute. reflexivity.
  - vm_compute. reflexivity.
  - vm_compute. lia.
  - vm_compute. reflexivity.
  - vm_compute. reflexivity.
  - vm_compute. reflexivity.
  - vm_compute. lia.
  - vm_compute. reflexivity.
  - vm_compute. reflexivity.
Defined.

(** ** Rows with a field more than the header *)

Lemma check_column_never : forall df r col,
  well_formed df = true -> all_str df = true -> never_last df ->
  In col (columns df) ->
  name_col r = None -> time_col r = None -> truthy (message_col r) = true ->
  check_column df r col = Ok r.
Proof.
  intros df r col WF Hstr Hnever Hcol Hn Ht Hm. unfold check_column.
  rewrite (test_column_never df WF col re_timestamp true Hnever Hstr Hcol).
  rewrite (test_column_never df WF col re_name _ Hnever Hstr Hcol).
  rewrite Hn, Ht. cbn [truthy bind]. rewrite Hn, Ht. cbn [truthy].
  now rewrite Hm.
Qed.

Lemma for_each_never : forall df cols r,
  well_formed df = true -> all_str df = true -> never_last df ->
  incl cols (columns df) ->
  name_col r = None -> time_col r = None -> truthy (message_col r) = true ->
  for_each (check_column df) cols r = Ok r.
Proof.
  intros df. induction cols as [|col cols IH];
    intros r WF Hstr Hnever Hincl Hn Ht Hm; [reflexivity|].
  cbn [for_each].
  rewrite check_column_never; try assumption; [|apply Hincl; now left].
  cbn [bind]. apply IH; try assumption.
  intros c Hc. apply Hincl. now right.
Qed.

(** X23. When no row has the label [len - 1], as in a file whose rows
    have one field more than the header and begin with a field of text,
    no test passes, whatever the cells hold: the first column is left with
    the message role, there is no timestamp column and no name column, and
    the run ends with the [KeyError] of the lookup of [None]. *)
Theorem no_last_label_no_names :
  forall up illegal_chars idx col cells others,
    let df := {| index := idx; data := (col, cells) :: others |} in
    well_formed df = true -> all_str df = true -> never_last df ->
    infer_roles df =
    Ok {| name_col := None; time_col := None; message_col := Some col |}
    /\ (_check_file (Csv df) = Ok tt ->
        run up illegal_chars (Csv df) = Raise (KeyError None)).
Proof.
  intros up illegal_chars idx col cells others df WF Hstr Hnever.
  assert (Hcol : In col (columns df)) by now left.
  assert (Hne : col <> [])
    by apply (well_formed_label df WF col cells (or_introl eq_refl)).
  assert (I : infer_roles df =
              Ok {| name_col := None; time_col := None;
                    message_col := Some col |}).
  { unfold infer_roles. unfold df at 2. cbn [columns data map fst for_each].
    fold df. unfold check_column at 1.
    rewrite (test_column_never df WF col re_timestamp true Hnever Hstr Hcol).
    rewrite (test_column_never df WF col re_name _ Hnever Hstr Hcol).
    cbn [truthy bind no_roles name_col time_col message_col].
    apply for_each_never; try assumption; try reflexivity.
    - intros c Hc. right. exact Hc.
    - destruct col; [contradiction | reflexivity]. }
  split; [exact I|]. intro Hcheck.
  unfold run. rewrite Hcheck. cbn [bind generate_cloud].
  apply (unresolved_raises up illegal_chars df
           {| name_col := None; time_col := None; message_col := Some col |}
           WF); [now apply check_file_rows | exact I | now left].
Qed.

Lemma no_last_label_no_names_witness :
  infer_roles rows_with_text_labels =
  Ok {| name_col := None; time_col := None; message_col := Some (py "who") |}
  /\ run (fun c => [c]) default_illegal_chars (Csv rows_with_text_labels)
     = Raise (KeyError None).
Proof.
  destruct (no_last_label_no_names (fun c => [c]) default_illegal_chars
              [StrLabel (py "x"); StrLabel (py "y")] (py "who")
              [Str (py "Alice"); Str (py "Bob")]
              [(py "text", [Str (py "Hello Bob"); Str (py "Hello Alice")])])
    as [I R].
  - vm_compute. reflexivity.
  - vm_compute. reflexivity.
  - intros l [<-|[<-|[]]]; reflexivity.
  - split; [exact I|]. apply R. vm_compute. reflexivity.
Defined.
